(** * Reviewer matching pipeline (main.py): shallow embedding and properties

    The development follows [src/main.py]: the query builder
    ([build_query]), the fitness engine ([compute_fitness]) with its two
    author-embedding policies, and the orchestration in [main] (profile cache,
    justification loop, output file).

    Numbers.  Tensor entries and scores are Python/torch floats.  They are
    modelled as exact rationals ([Qc]) extended with one extra value [NaN]:
    rounding error is not represented, the not-a-number produced by the mean
    of an empty slice is. *)

From Stdlib Require Import List String Ascii ZArith QArith Qcanon Lia Lqa Bool.
From Stdlib Require Import Permutation Sorted.
From stdpp Require Import base option list gmap strings.

Local Open Scope string_scope.
Local Open Scope list_scope.

(** ** Floats *)

Inductive tfloat : Type :=
| Fin (q : Qc)
| NaN.

Definition is_fin (x : tfloat) : bool :=
  match x with Fin _ => true | NaN => false end.

Definition fadd (x y : tfloat) : tfloat :=
  match x, y with
  | Fin a, Fin b => Fin (a + b)%Qc
  | _, _ => NaN
  end.

Definition fmul (x y : tfloat) : tfloat :=
  match x, y with
  | Fin a, Fin b => Fin (a * b)%Qc
  | _, _ => NaN
  end.

Definition Qc_of_nat (n : nat) : Qc := Q2Qc (inject_Z (Z.of_nat n)).

(** Division by an element count.  The only zero divisor the program can
    produce is the size of an empty slice, whose sum is [0]; [0/0] is [NaN]. *)
Definition fdiv_count (x : tfloat) (n : nat) : tfloat :=
  match x, n with
  | Fin a, S _ => Fin (a / Qc_of_nat n)%Qc
  | _, _ => NaN
  end.

(** IEEE comparison [x <= y]: false as soon as one side is [NaN]. *)
Definition fle (x y : tfloat) : bool :=
  match x, y with
  | Fin a, Fin b => Qle_bool a b
  | _, _ => false
  end.

(** ** Vectors and tensors

    A 1-D tensor is a list of floats, a 2-D tensor a list of rows. *)

Definition vec := list tfloat.

Fixpoint vadd (a b : vec) : vec :=
  match a, b with
  | x :: a', y :: b' => fadd x y :: vadd a' b'
  | _, _ => []
  end.

(** [torch.mean(t, dim=0)] for a slice [t] of a tensor with [d] columns: the
    column sums divided by the number of rows. *)
Definition torch_mean (d : nat) (rows : list vec) : vec :=
  map (fun s => fdiv_count s (length rows))
      (fold_left vadd rows (repeat (Fin 0%Qc) d)).

Fixpoint dot (a b : vec) : tfloat :=
  match a, b with
  | x :: a', y :: b' => fadd (fmul x y) (dot a' b')
  | _, _ => Fin 0%Qc
  end.

(** Exact counterparts on rationals, used to state results. *)
Fixpoint qdot (a b : list Qc) : Qc :=
  match a, b with
  | x :: a', y :: b' => (x * y + qdot a' b')%Qc
  | _, _ => 0%Qc
  end.

Definition sqnorm (a : list Qc) : Qc := qdot a a.

(** ** numpy / Python list helpers *)

Fixpoint cumsum_from (acc : nat) (l : list nat) : list nat :=
  match l with
  | [] => []
  | x :: l' => (acc + x) :: cumsum_from (acc + x) l'
  end.

(** [np.cumsum] *)
Definition np_cumsum (l : list nat) : list nat := cumsum_from 0 l.

(** Python slice [t[l:h]] for non-negative bounds. *)
Definition slice {A} (l h : nat) (t : list A) : list A := drop l (take h t).

(** ** Data model (the JSON records the program handles) *)

Record Publication := { title : string; abstract : string }.

(** One entry of [log/author_profile.json]. *)
Record Author := {
  name : string;
  list_of_pubs : list Publication;
  summary : string
}.

(** One line of the raw database ([read_jsonl]). *)
Record RawAuthor := { raw_name : string; publication_urls : list string }.

(** The [argparse] namespace of [get_args]. *)
Record Args := {
  data_path : string;
  query_path : string;
  output_path : string;
  llm : string;
  embedding_model_name_or_path : string;
  author_embedding : string;
  device : string
}.

(** One element of the list returned by [semantic_search]. *)
Record RankedEntry := { corpus_id : nat; score : tfloat }.

(** One element of [results] in [main]. *)
Record Result := {
  res_name : string;
  fitness : tfloat;
  explanation : string
}.

(** [list_of_authors] is dynamically typed: [main] passes the summaries under
    "summarize" and the publication lists otherwise. *)
Inductive author_keys : Type :=
| Summaries (l : list string)
| PubLists (l : list (list Publication)).

Definition author_count (l : author_keys) : nat :=
  match l with
  | Summaries l => length l
  | PubLists l => length l
  end.

(** The empty Python list is the same value under both views. *)
Definition as_pub_lists (l : author_keys) : option (list (list Publication)) :=
  match l with
  | PubLists l => Some l
  | Summaries [] => Some []
  | Summaries (_ :: _) => None
  end.

Definition as_texts (l : author_keys) : option (list string) :=
  match l with
  | Summaries l => Some l
  | PubLists [] => Some []
  | PubLists (_ :: _) => None
  end.

(** ** Exceptions, events and the effect monad *)

Inductive exn : Type :=
| NotImplementedError
| TypeError
| RuntimeError
| ValueError
| IndexError
| KeyError (k : string)
| FileNotFoundError (path : string)
| JSONDecodeError
| SystemExit (code : Z)
| CollaboratorError.

Inductive result (A : Type) : Type :=
| Ok (a : A)
| Raise (e : exn).
Arguments Ok {A} a.
Arguments Raise {A} e.

(** What a run does to the outside: calls of the embedding model, file reads
    and writes, calls of the two collaborators. *)
Inductive event : Type :=
| EvEncode (texts : list string)
| EvRead (path : string)
| EvWrite (path content : string)
| EvBuildProfile (raw : list RawAuthor)
| EvJustify (query_dict : gmap string string) (author_summary : string)
            (score_percent : Z).

(** Files by path, and the events so far, oldest first. *)
Record world := { fs : gmap string string; trace : list event }.

Definition log (ev : event) (w : world) : world :=
  {| fs := fs w; trace := trace w ++ [ev] |}.

Definition M (A : Type) : Type := world -> result A * world.

Definition ret {A} (a : A) : M A := fun w => (Ok a, w).

Definition raise {A} (e : exn) : M A := fun w => (Raise e, w).

Definition bind {A B} (m : M A) (k : A -> M B) : M B :=
  fun w =>
    match m w with
    | (Ok a, w') => k a w'
    | (Raise e, w') => (Raise e, w')
    end.

Notation "x <- c ;; k" := (bind c (fun x => k))
  (at level 100, c at next level, right associativity).

Definition lift {A} (r : result A) : M A := fun w => (r, w).

Definition emit (ev : event) : M unit := fun w => (Ok tt, log ev w).

(** The events a computation adds when started in [w]. *)
Definition new_events {A} (m : M A) (w : world) : list event :=
  drop (length (trace w)) (trace (snd (m w))).

Definition LF : ascii := ascii_of_nat 10.
Definition nl : string := String LF EmptyString.

(** ** Query builder (main.py, lines 59-69) *)

Definition dict_get (d : gmap string string) (k : string) : result string :=
  match d !! k with
  | Some v => Ok v
  | None => Raise (KeyError k)
  end.

Definition build_query (query_dict : gmap string string) : result string :=
  match dict_get query_dict "title" with
  | Raise e => Raise e
  | Ok t =>
      match dict_get query_dict "abstract" with
      | Raise e => Raise e
      | Ok a => Ok ("Title: " +:+ t +:+ nl +:+ "Abstract: " +:+ a)
      end
  end.

(** The same f-string, applied to a publication (line 91). *)
Definition pub_text (pub : Publication) : string :=
  "Title: " +:+ title pub +:+ nl +:+ "Abstract: " +:+ abstract pub.

(** ** Similarity search

    [semantic_search] belongs to the sentence-transformers package and is not
    part of src/; the four definitions below render what the specification
    says of it. *)

(** Modelled from the spec: the score function of the absent
    [semantic_search].  The glossary defines cosine similarity as the dot
    product of the two vectors, which are not normalised again. *)
Definition cos_sim (a b : vec) : tfloat := dot a b.

(** Modelled from the spec: one step of the stable descending sort of the
    absent [semantic_search].  [e] comes from a lower corpus position than
    everything in [l] and is placed before the first entry whose score does not
    exceed its own. *)
Fixpoint insert_ranked (e : RankedEntry) (l : list RankedEntry) : list RankedEntry :=
  match l with
  | [] => [e]
  | x :: l' =>
      if fle (score x) (score e) then e :: x :: l'
      else x :: insert_ranked e l'
  end.

(** Modelled from the spec: the sort of the absent [semantic_search],
    "descending score, ties broken by stable original author-index order". *)
Definition sort_ranked (l : list RankedEntry) : list RankedEntry :=
  foldr insert_ranked [] l.

(** Modelled from the spec: the scores of the absent [semantic_search], one
    entry per corpus row, in row order. *)
Definition score_all (q : vec) (corpus : list vec) : list RankedEntry :=
  imap (fun i row => {| corpus_id := i; score := cos_sim q row |}) corpus.

(** Modelled from the spec: [semantic_search] of the sentence-transformers
    package, which src/ does not contain.  Section 4.3: cosine similarity of
    the query embedding against every author vector (the glossary: the dot
    product of the two vectors), sorted by descending score, ties in original
    author-index order, cut to the requested size [top_k]; one ranking per
    query row. *)
Definition semantic_search (queries : list vec) (corpus : list vec) (top_k : nat)
  : list (list RankedEntry) :=
  map (fun q => take top_k (sort_ranked (score_all q corpus))) queries.

(** ** Python built-ins used by [main] *)

(** [round(x)] on a float: nearest integer, halves to the even neighbour. *)
Definition round_half_even (q : Qc) : Z :=
  let n := Qnum (this q) in
  let d := Zpos (Qden (this q)) in
  let f := (n / d)%Z in
  let r2 := (2 * (n mod d))%Z in
  if (r2 <? d)%Z then f
  else if (d <? r2)%Z then (f + 1)%Z
  else if Z.even f then f else (f + 1)%Z.

(** [round] raises [ValueError] on a NaN. *)
Definition py_round (x : tfloat) : result Z :=
  match x with
  | Fin q => Ok (round_half_even q)
  | NaN => Raise ValueError
  end.

Definition starts_with_slash (s : string) : bool :=
  match s with
  | String c _ => bool_decide (c = "/"%char)
  | EmptyString => false
  end.

Fixpoint ends_with_slash (s : string) : bool :=
  match s with
  | EmptyString => false
  | String c EmptyString => bool_decide (c = "/"%char)
  | String _ s' => ends_with_slash s'
  end.

(** [os.path.join(a, b)] (posix). *)
Definition os_path_join (a b : string) : string :=
  if starts_with_slash b then b
  else if bool_decide (a = "") || ends_with_slash a then a +:+ b
  else a +:+ "/" +:+ b.

(** Iterating over a text file: the lines, each with its terminator.  The
    text is the one Python hands over, its line ends already turned into line
    feeds by [universal_newlines]. *)
Fixpoint file_iter (s : string) : list string :=
  match s with
  | EmptyString => []
  | String c s' =>
      if bool_decide (c = LF) then String c EmptyString :: file_iter s'
      else match file_iter s' with
           | [] => [String c EmptyString]
           | l :: ls => String c l :: ls
           end
  end.

Definition CR : ascii := ascii_of_nat 13.

(** Reading a file opened with [open(path, "r")]: universal newlines, every
    CR LF pair and every lone CR comes out as one line feed. *)
Fixpoint universal_newlines (s : string) : string :=
  match s with
  | EmptyString => EmptyString
  | String c s' =>
      if bool_decide (c = CR) then
        match s' with
        | String c' s'' =>
            if bool_decide (c' = LF) then String LF (universal_newlines s'')
            else String LF (universal_newlines s')
        | EmptyString => String LF EmptyString
        end
      else String c (universal_newlines s')
  end.

Fixpoint has_cr (s : string) : bool :=
  match s with
  | EmptyString => false
  | String c s' => bool_decide (c = CR) || has_cr s'
  end.

Fixpoint has_newline (s : string) : bool :=
  match s with
  | EmptyString => false
  | String c s' => bool_decide (c = LF) || has_newline s'
  end.

Definition cache_file : string := "log/author_profile.json".

Definition choices : list string := ["aggregate"; "summarize"].

(** [get_args]: argparse rejects a value outside [choices] and exits with
    status 2 (line 27). *)
Definition get_args (argv : Args) : M Args :=
  if bool_decide (author_embedding argv ∈ choices) then ret argv
  else raise (SystemExit 2).

(** [open(path, "r")] followed by reading the whole file. *)
Definition open_read (path : string) : M string :=
  fun w =>
    match fs w !! path with
    | Some c => (Ok c, log (EvRead path) w)
    | None => (Raise (FileNotFoundError path), w)
    end.

(** [open(path, "w")] and writing [content]; directories are not modelled, so
    the write goes through. *)
Definition open_write (path content : string) : M unit :=
  fun w =>
    (Ok tt, {| fs := <[path := content]> (fs w);
               trace := trace w ++ [EvWrite path content] |}).

Definition os_path_exists (path : string) : M bool :=
  fun w => (Ok (bool_decide (is_Some (fs w !! path))), w).

Fixpoint mapM {A B} (f : A -> result B) (l : list A) : result (list B) :=
  match l with
  | [] => Ok []
  | x :: l' =>
      match f x with
      | Raise e => Raise e
      | Ok y =>
          match mapM f l' with
          | Raise e => Raise e
          | Ok ys => Ok (y :: ys)
          end
      end
  end.

(** ** Reference notions used in the statements *)

Definition qsum (l : list Qc) : Qc := foldr Qcplus 0%Qc l.

(** Coordinate [j] of each vector. *)
Definition column (j : nat) (vs : list (list Qc)) : list Qc :=
  map (fun v => nth j v 0%Qc) vs.

(** The arithmetic mean of [vs], vectors of [d] coordinates: coordinate [j]
    is the sum of the [j]-th coordinates divided by the number of vectors. *)
Definition arith_mean (d : nat) (vs : list (list Qc)) : list Qc :=
  map (fun j => (qsum (column j vs) / Qc_of_nat (length vs))%Qc) (seq 0 d).

Fixpoint qvadd (a b : list Qc) : list Qc :=
  match a, b with
  | x :: a', y :: b' => (x + y)%Qc :: qvadd a' b'
  | _, _ => []
  end.

(** A total ranking of [n] authors: every index once, scores never
    increasing down the list, equal scores in ascending index order. *)
Definition total_ranking (n : nat) (r : list RankedEntry) : Prop :=
  Permutation (map corpus_id r) (seq 0 n) /\
  forall i j ei ej,
    i < j -> r !! i = Some ei -> r !! j = Some ej ->
    fle (score ej) (score ei) = true /\
    (score ei = score ej -> corpus_id ei < corpus_id ej).

(** [a] may stand above [b] in a ranking. *)
Definition ranks_before (a b : RankedEntry) : Prop :=
  fle (score b) (score a) = true /\
  (score a = score b -> corpus_id a < corpus_id b).

Definition finite_scores (l : list RankedEntry) : Prop :=
  Forall (fun e => is_fin (score e) = true) l.

(** A small embedding model for examples: three unit vectors of the plane,
    chosen by the length of the text. *)
Definition toy_encode (s : string) : list Qc :=
  match String.length s mod 3 with
  | 0 => [1%Qc; 0%Qc]
  | 1 => [0%Qc; 1%Qc]
  | _ => [Q2Qc (3 # 5); Q2Qc (4 # 5)]
  end.

(** ** Sample inputs for the examples *)

Definition sample_args (policy : string) : Args :=
  {| data_path := "data/test_database.jsonl";
     query_path := "data/test_query.json";
     output_path := "./log/";
     llm := "qwen2.5-72b-instruct";
     embedding_model_name_or_path := "all-MiniLM-L6-v2";
     author_embedding := policy;
     device := "cpu" |}.

Definition pub0 : Publication := {| title := ""; abstract := "" |}.
Definition pub1 : Publication := {| title := "a"; abstract := "" |}.

Definition sample_database : list Author :=
  [ {| name := "A"; list_of_pubs := [pub0; pub1]; summary := "sa" |};
    {| name := "B"; list_of_pubs := [pub1]; summary := "s" |} ].

Definition sample_query : gmap string string :=
  {[ "title" := "Q"; "abstract" := "Z" ]}.

Definition sample_loads_query (content : string) : result (gmap string string) :=
  Ok sample_query.

Definition sample_loads_profile (content : string) : result (list Author) :=
  if bool_decide (content = "cache") then Ok sample_database
  else Raise JSONDecodeError.

Definition sample_loads_raw (line : string) : result RawAuthor :=
  Ok {| raw_name := line; publication_urls := [] |}.

Definition sample_dumps_profile (database : list Author) : string := "cache".

Definition sample_dumps (item : Result) : string := "{}".

Definition sample_build_profile (raw : list RawAuthor) (args : Args)
  : result (list Author) := Ok sample_database.

Definition sample_justification (query_dict : gmap string string)
    (author_summary : string) (score_percent : Z) (args : Args) : result string :=
  Ok "fits".

(** A justification service that is down. *)
Definition failing_justification (query_dict : gmap string string)
    (author_summary : string) (score_percent : Z) (args : Args) : result string :=
  Raise CollaboratorError.

Definition empty_world : world := {| fs := ∅; trace := [] |}.

(** The query file and the profile cache are there, the raw database is not. *)
Definition sample_world : world :=
  {| fs := {[ "data/test_query.json" := "{}"; cache_file := "cache" ]};
     trace := [] |}.

(** The same cache next to another raw database. *)
Definition other_world : world :=
  {| fs := {[ "elsewhere.jsonl" := "{}"; cache_file := "cache" ]};
     trace := [EvRead "elsewhere.jsonl"] |}.

(** The raw database of two lines is there, the profile cache is not. *)
Definition fresh_world : world :=
  {| fs := {[ "data/test_database.jsonl" := "A" +:+ nl +:+ "B" +:+ nl;
              "data/test_query.json" := "{}" ]};
     trace := [] |}.

(** The same raw database written with CR LF line ends. *)
Definition crlf_world : world :=
  {| fs := {[ "data/test_database.jsonl"
              := String "A" (String CR nl) +:+ String "B" (String CR nl) ]};
     trace := [] |}.

(** The second author has no publication. *)
Definition orphan_database : list Author :=
  [ {| name := "A"; list_of_pubs := [pub0]; summary := "sa" |};
    {| name := "B"; list_of_pubs := []; summary := "s" |} ].

(** A profile cache that holds [orphan_database]. *)
Definition orphan_loads_profile (content : string) : result (list Author) :=
  Ok orphan_database.

Definition nan_ranking : list RankedEntry :=
  [ {| corpus_id := 1; score := NaN |};
    {| corpus_id := 0; score := Fin (Q2Qc (1 # 2)) |} ].

Definition sample_ranking : list RankedEntry :=
  [ {| corpus_id := 1; score := Fin (Q2Qc (4 # 5)) |};
    {| corpus_id := 0; score := Fin (Q2Qc (1 # 2)) |} ].

Section Pipeline.

(** The embedding model: [model.encode(text, normalize_embeddings=True)]
    as a function from a text to a vector of [dim] numbers of Euclidean
    norm 1; a batch is encoded text by text. *)
Variable dim : nat.
Variable encode : string -> list Qc.
Hypothesis encode_dim : forall s, length (encode s) = dim.
Hypothesis encode_unit : forall s, sqnorm (encode s) = 1%Qc.

(** The json module on the three shapes the program reads and the two it
    writes. *)
Variable json_loads_query : string -> result (gmap string string).
Variable json_loads_profile : string -> result (list Author).
Variable json_loads_raw : string -> result RawAuthor.
Variable json_dumps_profile : list Author -> string.
Variable json_dumps : Result -> string.
(** [json.dumps] without [indent] writes no line break. *)
Hypothesis json_dumps_one_line : forall r, has_newline (json_dumps r) = false.

(** The collaborators [process_data.build_author_profile] and
    [generate_justification.generate_justification]: each call either
    returns or raises. *)
Variable build_author_profile : list RawAuthor -> Args -> result (list Author).
Variable generate_justification :
  gmap string string -> string -> Z -> Args -> result string.

Definition embed (text : string) : vec := map Fin (encode text).

Definition model_encode (texts : list string) : M (list vec) :=
  _ <- emit (EvEncode texts) ;;
  ret (map embed texts).

(** [torch.stack] refuses an empty list of tensors. *)
Definition torch_stack (rows : list vec) : M (list vec) :=
  match rows with
  | [] => raise RuntimeError
  | _ :: _ => ret rows
  end.

(** Lines 87-88. *)
Definition slice_bounds (list_of_authors : list (list Publication))
  : list nat * list nat :=
  let n_pub_per_author := map length list_of_authors in
  (np_cumsum (0 :: removelast n_pub_per_author), np_cumsum n_pub_per_author).

(** Lines 87-95: the "aggregate" branch.  When the batch holds no text at
    all the model returns a tensor without columns; what the search makes of
    the stacked means is then settled by [flat_corpus] in [compute_fitness]. *)
Definition aggregate_embedding (list_of_authors : list (list Publication))
  : M (list vec) :=
  let '(low, high) := slice_bounds list_of_authors in
  let stacked_pubs := concat list_of_authors in
  let stacked_pubs := map pub_text stacked_pubs in
  all_pub_embedding <- model_encode stacked_pubs ;;
  let corpus_embedding :=
    map (fun lh => torch_mean dim (slice (fst lh) (snd lh) all_pub_embedding))
        (zip low high) in
  torch_stack corpus_embedding.

(** Lines 85-99: the vectors the authors contribute, by policy.  A list of
    the other kind than the policy expects is a type error ([list + str] on
    line 90, the tokenizer on line 97). *)
Definition corpus_embedding (list_of_authors : author_keys) (args : Args)
  : M (list vec) :=
  if bool_decide (author_embedding args = "aggregate") then
    match as_pub_lists list_of_authors with
    | Some l => aggregate_embedding l
    | None => raise TypeError
    end
  else if bool_decide (author_embedding args = "summarize") then
    match as_texts list_of_authors with
    | Some l => model_encode l
    | None => raise TypeError
    end
  else raise NotImplementedError.

(** No text goes to the model for the authors. *)
Definition batch_is_empty (list_of_authors : author_keys) : bool :=
  match list_of_authors with
  | Summaries l => bool_decide (l = [])
  | PubLists l => bool_decide (concat l = [])
  end.

(** Under "aggregate" the model returns an empty batch as a 1-D tensor without
    columns; the means of its slices are 0-d NaNs and [torch.stack] makes of
    them a 1-D tensor, one NaN per author.  The rows of [aggregate_embedding]
    stand for these NaNs; the shape is kept here. *)
Definition flat_corpus (list_of_authors : author_keys) (args : Args) : bool :=
  bool_decide (author_embedding args = "aggregate") && batch_is_empty list_of_authors.

(** [semantic_search] on such a 1-D corpus of [n] NaNs and a query of [d]
    columns (behaviour of the absent library): the corpus counts as one row of
    [n] columns, the product with the query exists only for [n = d], and the
    one score is then NaN. *)
Definition semantic_search_flat (d n : nat) : result (list (list RankedEntry)) :=
  if bool_decide (n = d) then Ok [[ {| corpus_id := 0; score := NaN |} ]]
  else Raise RuntimeError.

(** Lines 84-100. *)
Definition compute_fitness (query : string) (list_of_authors : author_keys)
    (args : Args) : M (list RankedEntry) :=
  query_embedding <- model_encode [query] ;;
  corpus <- corpus_embedding list_of_authors args ;;
  hits <- (if flat_corpus list_of_authors args
           then lift (semantic_search_flat dim (length corpus))
           else ret (semantic_search query_embedding corpus
                       (author_count list_of_authors))) ;;
  match hits with
  | r :: _ => ret r
  | [] => raise IndexError
  end.

(** *** Orchestration ([main], lines 102-149) *)

(** [read_jsonl], lines 45-57. *)
Definition read_jsonl (path : string) : M (list RawAuthor) :=
  content <- open_read path ;;
  lift (mapM json_loads_raw (file_iter (universal_newlines content))).

(** Lines 109-110. *)
Definition load_query (args : Args) : M (gmap string string) :=
  content <- open_read (query_path args) ;;
  lift (json_loads_query content).

(** Lines 114-125: build the author profiles once, reuse the file after. *)
Definition load_author_profile (args : Args) : M (list Author) :=
  present <- os_path_exists cache_file ;;
  if negb present then
    database <- read_jsonl (data_path args) ;;
    _ <- emit (EvBuildProfile database) ;;
    database <- lift (build_author_profile database args) ;;
    _ <- open_write cache_file (json_dumps_profile database) ;;
    ret database
  else
    content <- open_read cache_file ;;
    lift (json_loads_profile content).

(** Lines 131-132. *)
Definition select_keys (args : Args) (database : list Author) : author_keys :=
  if bool_decide (author_embedding args = "summarize")
  then Summaries (map summary database)
  else PubLists (map list_of_pubs database).

(** [database[author_id]] *)
Definition db_get (database : list Author) (author_id : nat) : result Author :=
  match database !! author_id with
  | Some a => Ok a
  | None => Raise IndexError
  end.

(** One call of the collaborator. *)
Definition call_justification (query_dict : gmap string string)
    (author_summary : string) (score_percent : Z) (args : Args) : M string :=
  _ <- emit (EvJustify query_dict author_summary score_percent) ;;
  lift (generate_justification query_dict author_summary score_percent args).

(** Lines 136-145: the loop over the ranking, [results] threaded through. *)
Fixpoint justify_loop (query_dict : gmap string string) (database : list Author)
    (args : Args) (items : list RankedEntry) (results : list Result)
  : M (list Result) :=
  match items with
  | [] => ret results
  | item :: rest =>
      let author_id := corpus_id item in
      let score := score item in
      author <- lift (db_get database author_id) ;;
      let author_name := name author in
      percent <- lift (py_round (fmul score (Fin (Qc_of_nat 100)))) ;;
      reason <- call_justification query_dict (summary author) percent args ;;
      justify_loop query_dict database args rest
        (results ++ [{| res_name := author_name;
                        fitness := score;
                        explanation := reason |}])
  end.

Definition output_file (args : Args) : string :=
  os_path_join (output_path args) ("output_" +:+ author_embedding args +:+ ".txt").

Fixpoint output_text (results : list Result) : string :=
  match results with
  | [] => ""
  | item :: rest => (json_dumps item +:+ nl) +:+ output_text rest
  end.

(** Lines 147-149. *)
Definition write_output (args : Args) (results : list Result) : M unit :=
  open_write (output_file args) (output_text results).

(** Lines 128-145, from the loaded inputs to the results. *)
Definition rank_and_justify (args : Args) (query_dict : gmap string string)
    (database : list Author) : M (list RankedEntry * list Result) :=
  query <- lift (build_query query_dict) ;;
  let list_of_authors := select_keys args database in
  sorted_id_and_scores <- compute_fitness query list_of_authors args ;;
  results <- justify_loop query_dict database args sorted_id_and_scores [] ;;
  ret (sorted_id_and_scores, results).

(** [main].  [init_model] only builds the embedding model, here [encode];
    [os.makedirs] has nothing to do, directories not being modelled. *)
Definition main (argv : Args) : M unit :=
  args <- get_args argv ;;
  query_dict <- load_query args ;;
  database <- load_author_profile args ;;
  rr <- rank_and_justify args query_dict database ;;
  write_output args (snd rr).

(** *** Reference formulations used in the statements *)

(** The pairs [(low, high)] written as one recursion over the counts. *)
Fixpoint bounds_from (acc : nat) (counts : list nat) : list (nat * nat) :=
  match counts with
  | [] => []
  | c :: counts' => (acc, acc + c) :: bounds_from (acc + c) counts'
  end.


(** The texts of the one batch that the model encodes for the authors. *)
Definition batch_texts (list_of_authors : author_keys) : list string :=
  match list_of_authors with
  | Summaries l => l
  | PubLists l => map pub_text (concat l)
  end.

(** The call of the justification service that the loop makes for entry
    [e]: defined when the author resolves and the score rounds. *)
Definition justification_call (query_dict : gmap string string)
    (database : list Author) (e : RankedEntry) : option event :=
  match database !! corpus_id e, py_round (fmul (score e) (Fin (Qc_of_nat 100))) with
  | Some author, Ok percent => Some (EvJustify query_dict (summary author) percent)
  | _, _ => None
  end.

(** [item] is what the loop appends for entry [e] when nothing raises. *)
Definition justified (query_dict : gmap string string) (database : list Author)
    (args : Args) (e : RankedEntry) (item : Result) : Prop :=
  exists author percent,
    database !! corpus_id e = Some author /\
    py_round (fmul (score e) (Fin (Qc_of_nat 100))) = Ok percent /\
    generate_justification query_dict (summary author) percent args
    = Ok (explanation item) /\
    res_name item = name author /\
    fitness item = score e.

(** *** Prefix sums and slices *)

Lemma length_cumsum_from acc l : length (cumsum_from acc l) = length l.
Proof. revert acc; induction l as [|x l IH]; intros acc; simpl; [done|]. by rewrite IH. Qed.

Lemma zip_cumsum_bounds acc counts :
  zip (acc :: cumsum_from acc (removelast counts)) (cumsum_from acc counts)
  = bounds_from acc counts.
Proof.
  revert acc. induction counts as [|c counts IH]; intros acc; [done|].
  destruct counts as [|c' counts]; [done|].
  change (removelast (c :: c' :: counts)) with (c :: removelast (c' :: counts)).
  cbn [cumsum_from zip_with bounds_from]. f_equal. apply IH.
Qed.

Lemma slice_bounds_zip (list_of_authors : list (list Publication)) :
  zip (fst (slice_bounds list_of_authors)) (snd (slice_bounds list_of_authors))
  = bounds_from 0 (map length list_of_authors).
Proof. apply zip_cumsum_bounds. Qed.

Lemma slice_middle {A} (pre g rest : list A) :
  slice (length pre) (length pre + length g) (pre ++ g ++ rest) = g.
Proof.
  unfold slice. rewrite (assoc_L app pre g rest).
  rewrite take_app_length'; [|by rewrite length_app].
  by rewrite drop_app_length.
Qed.

Lemma slices_of_concat {A} (groups : list (list A)) (pre : list A) :
  map (fun lh => slice (fst lh) (snd lh) (pre ++ concat groups))
      (bounds_from (length pre) (map length groups))
  = groups.
Proof.
  revert pre. induction groups as [|g groups IH]; intros pre; [done|].
  cbn [map concat bounds_from fst snd]. f_equal.
  - apply slice_middle.
  - rewrite (assoc_L app pre g (concat groups)), <- length_app. apply IH.
Qed.

Lemma map_concat {A B} (f : A -> B) (ls : list (list A)) :
  map f (concat ls) = concat (map (map f) ls).
Proof. induction ls as [|l ls IH]; simpl; [done|]. by rewrite map_app, IH. Qed.

Lemma map_length_map {A B} (f : A -> B) (ls : list (list A)) :
  map length (map (map f) ls) = map length ls.
Proof. induction ls as [|l ls IH]; simpl; [done|]. by rewrite length_map, IH. Qed.

(** The slices of the batch are the authors' own embeddings, in author order. *)
Lemma batch_slices (list_of_authors : list (list Publication)) :
  map (fun lh => slice (fst lh) (snd lh)
                   (map embed (map pub_text (concat list_of_authors))))
      (zip (fst (slice_bounds list_of_authors)) (snd (slice_bounds list_of_authors)))
  = map (fun pubs => map embed (map pub_text pubs)) list_of_authors.
Proof.
  set (f := fun p => embed (pub_text p)).
  rewrite slice_bounds_zip.
  replace (map embed (map pub_text (concat list_of_authors)))
    with ([] ++ concat (map (map f) list_of_authors))
    by (simpl; rewrite <- map_concat; symmetry; apply map_map).
  rewrite <- (map_length_map f list_of_authors).
  change 0 with (length (@nil vec)).
  rewrite slices_of_concat.
  apply map_ext. intros pubs. symmetry. apply map_map.
Qed.

Lemma lookup_map {A B} (f : A -> B) (l : list A) (i : nat) :
  map f l !! i = f <$> (l !! i).
Proof. change (map f l) with (f <$> l). apply list_lookup_fmap. Qed.


Lemma aggregate_embedding_run (list_of_authors : list (list Publication)) w :
  aggregate_embedding list_of_authors w
  = (match list_of_authors with
     | [] => Raise RuntimeError
     | _ :: _ =>
         Ok (map (fun pubs => torch_mean dim (map embed (map pub_text pubs)))
                 list_of_authors)
     end,
     log (EvEncode (map pub_text (concat list_of_authors))) w).
Proof.
  unfold aggregate_embedding.
  pose proof (batch_slices list_of_authors) as Hs.
  destruct (slice_bounds list_of_authors) as [low high]. simpl in Hs.
  unfold bind, model_encode, bind, emit, ret.
  rewrite <- (map_map _ (torch_mean dim)
    (zip low high)), Hs, map_map.
  by destruct list_of_authors.
Qed.

Lemma new_events_log {A} (m : M A) (w : world) (r : result A) (evs : list event) :
  m w = (r, {| fs := fs w; trace := trace w ++ evs |}) ->
  new_events m w = evs.
Proof.
  intros H. unfold new_events. rewrite H. simpl. apply drop_app_length.
Qed.

(** The cut for author [i] holds that author's embeddings. *)
Lemma author_slice (list_of_authors : list (list Publication)) (i : nat)
    (pubs : list Publication) :
  list_of_authors !! i = Some pubs ->
  exists l h,
    fst (slice_bounds list_of_authors) !! i = Some l /\
    snd (slice_bounds list_of_authors) !! i = Some h /\
    slice l h (map embed (map pub_text (concat list_of_authors)))
    = map embed (map pub_text pubs).
Proof.
  intros Hi. pose proof (batch_slices list_of_authors) as Hs.
  apply (f_equal (fun rows => rows !! i)) in Hs.
  rewrite !lookup_map, Hi in Hs.
  destruct (zip _ _ !! i) as [[l h]|] eqn:Hz; [|done].
  apply lookup_zip_with_Some in Hz as (l' & h' & [= <- <-] & Hlo & Hhi).
  exists l, h. repeat split; try done. by inversion Hs.
Qed.


(** *** Arithmetic on floats and vectors *)

Lemma Qc_square_nonneg (x : Qc) : (0 <= x * x)%Qc.
Proof.
  unfold Qcle. cbn [this Qcmult Q2Qc]. rewrite !Qred_correct.
  destruct (this x) as [n d]. unfold Qle, Qmult; simpl. nia.
Qed.

Lemma sqnorm_nonneg (a : list Qc) : (0 <= sqnorm a)%Qc.
Proof.
  unfold sqnorm. induction a as [|x a IH]; simpl; [done|].
  replace 0%Qc with (0 + 0)%Qc by ring.
  apply Qcplus_le_compat; [apply Qc_square_nonneg | exact IH].
Qed.

Lemma qdot_upper (a b : list Qc) : (2 * qdot a b <= sqnorm a + sqnorm b)%Qc.
Proof.
  unfold sqnorm. revert b. induction a as [|x a IH]; intros [|y b]; simpl.
  - by vm_compute.
  - replace (2 * 0)%Qc with (0 + 0)%Qc by ring.
    apply Qcplus_le_compat; [done | apply (sqnorm_nonneg (y :: b))].
  - replace (2 * 0)%Qc with (0 + 0)%Qc by ring.
    apply Qcplus_le_compat; [apply (sqnorm_nonneg (x :: a)) | done].
  - specialize (IH b). apply Qcle_minus_iff. apply Qcle_minus_iff in IH.
    replace (x * x + qdot a a + (y * y + qdot b b) + - (2 * (x * y + qdot a b)))%Qc
      with ((x - y) * (x - y) + (qdot a a + qdot b b + - (2 * qdot a b)))%Qc by ring.
    replace 0%Qc with (0 + 0)%Qc by ring.
    apply Qcplus_le_compat; [apply Qc_square_nonneg | exact IH].
Qed.

Lemma qdot_lower (a b : list Qc) : (- (sqnorm a + sqnorm b) <= 2 * qdot a b)%Qc.
Proof.
  unfold sqnorm. revert b. induction a as [|x a IH]; intros [|y b]; simpl.
  - by vm_compute.
  - apply Qcle_minus_iff.
    replace (2 * 0 + - - (0 + (y * y + qdot b b)))%Qc with (sqnorm (y :: b))
      by (unfold sqnorm; simpl; ring).
    apply sqnorm_nonneg.
  - apply Qcle_minus_iff.
    replace (2 * 0 + - - (x * x + qdot a a + 0))%Qc with (sqnorm (x :: a))
      by (unfold sqnorm; simpl; ring).
    apply sqnorm_nonneg.
  - specialize (IH b). apply Qcle_minus_iff. apply Qcle_minus_iff in IH.
    replace (2 * (x * y + qdot a b) + - - (x * x + qdot a a + (y * y + qdot b b)))%Qc
      with ((x + y) * (x + y) + (2 * qdot a b + - - (qdot a a + qdot b b)))%Qc by ring.
    replace 0%Qc with (0 + 0)%Qc by ring.
    apply Qcplus_le_compat; [apply Qc_square_nonneg | exact IH].
Qed.

(** The dot product of two vectors of norm 1 lies between -1 and 1. *)
Lemma unit_dot_bounds (a b : list Qc) :
  sqnorm a = 1%Qc -> sqnorm b = 1%Qc ->
  (- (1) <= qdot a b)%Qc /\ (qdot a b <= 1)%Qc.
Proof.
  intros Ha Hb.
  pose proof (qdot_upper a b) as Hu. pose proof (qdot_lower a b) as Hl.
  rewrite Ha, Hb in Hu, Hl. revert Hu Hl.
  unfold Qcle. cbn [this Qcmult Qcplus Qcopp Q2Qc]. rewrite !Qred_correct.
  generalize (this (qdot a b)). intros t Hu Hl. split; lra.
Qed.

Lemma dot_fin (a b : list Qc) : dot (map Fin a) (map Fin b) = Fin (qdot a b).
Proof.
  revert b. induction a as [|x a IH]; intros [|y b]; simpl; try done.
  by rewrite IH.
Qed.

Lemma vadd_fin (a b : list Qc) : vadd (map Fin a) (map Fin b) = map Fin (qvadd a b).
Proof.
  revert b. induction a as [|x a IH]; intros [|y b]; simpl; try done.
  by rewrite IH.
Qed.

Lemma fold_vadd_fin (vs : list (list Qc)) (acc : list Qc) :
  fold_left vadd (map (map Fin) vs) (map Fin acc)
  = map Fin (fold_left qvadd vs acc).
Proof.
  revert acc. induction vs as [|v vs IH]; intros acc; simpl; [done|].
  by rewrite vadd_fin, IH.
Qed.

Lemma length_qvadd (a b : list Qc) :
  length a = length b -> length (qvadd a b) = length a.
Proof.
  revert b. induction a as [|x a IH]; intros [|y b] H; simpl in *; try done.
  f_equal. apply IH. lia.
Qed.

Lemma nth_qvadd (a b : list Qc) (j : nat) :
  length a = length b ->
  nth j (qvadd a b) 0%Qc = (nth j a 0 + nth j b 0)%Qc.
Proof.
  revert b j. induction a as [|x a IH]; intros [|y b] j H; simpl in *; try done.
  - destruct j; ring.
  - destruct j; [done|]. apply IH. lia.
Qed.

Lemma length_fold_qvadd (d : nat) (vs : list (list Qc)) (acc : list Qc) :
  Forall (fun v => length v = d) vs -> length acc = d ->
  length (fold_left qvadd vs acc) = d.
Proof.
  intros Hvs. revert acc. induction Hvs as [|v vs Hv _ IH]; intros acc Hacc; simpl.
  - done.
  - apply IH. rewrite length_qvadd; congruence.
Qed.

Lemma nth_fold_qvadd (d : nat) (vs : list (list Qc)) (acc : list Qc) (j : nat) :
  Forall (fun v => length v = d) vs -> length acc = d ->
  nth j (fold_left qvadd vs acc) 0%Qc = (nth j acc 0 + qsum (column j vs))%Qc.
Proof.
  intros Hvs. revert acc. induction Hvs as [|v vs Hv _ IH]; intros acc Hacc; simpl.
  - ring.
  - rewrite IH by (rewrite length_qvadd; congruence).
    rewrite nth_qvadd by congruence. ring.
Qed.

(** On a non-empty slice of finite rows [torch.mean] is the arithmetic mean. *)
Lemma torch_mean_fin (d : nat) (vs : list (list Qc)) :
  vs <> [] -> Forall (fun v => length v = d) vs ->
  torch_mean d (map (map Fin) vs) = map Fin (arith_mean d vs).
Proof.
  intros Hne Hvs. unfold torch_mean, arith_mean.
  replace (repeat (Fin 0%Qc) d) with (map Fin (repeat 0%Qc d))
    by apply map_repeat.
  rewrite fold_vadd_fin, length_map, !map_map.
  destruct vs as [|v0 vs0] eqn:E; [done|]. rewrite <- E in *.
  assert (Hlen : length vs = S (length vs0)) by (by rewrite E).
  rewrite Hlen. cbn [fdiv_count].
  apply (nth_ext _ _ (Fin 0%Qc) (Fin 0%Qc)).
  - rewrite !length_map, length_seq.
    apply length_fold_qvadd; [done | apply repeat_length].
  - intros j Hj. rewrite length_map in Hj.
    rewrite (length_fold_qvadd d) in Hj by (done || apply repeat_length).
    rewrite (nth_indep _ _ (Fin (0 / Qc_of_nat (S (length vs0)))%Qc))
      by (rewrite length_map, (length_fold_qvadd d); done || apply repeat_length).
    rewrite (map_nth (fun q => Fin (q / Qc_of_nat (S (length vs0)))%Qc)).
    rewrite (nth_indep _ _
      (Fin (qsum (column 0 vs) / Qc_of_nat (S (length vs0)))%Qc))
      by (by rewrite length_map, length_seq).
    rewrite (map_nth
      (fun j => Fin (qsum (column j vs) / Qc_of_nat (S (length vs0)))%Qc)
      (seq 0 d) 0 j).
    rewrite seq_nth by done. simpl.
    rewrite (nth_fold_qvadd d) by (done || apply repeat_length).
    by rewrite nth_repeat, Qcplus_0_l.
Qed.

(** The mean of an empty slice: not a number in every column. *)
Lemma torch_mean_empty (d : nat) : torch_mean d [] = repeat NaN d.
Proof.
  unfold torch_mean. simpl. induction d as [|d IH]; simpl; congruence.
Qed.

Lemma dot_fin_nan (a : list Qc) (d : nat) :
  a <> [] -> length a = d -> dot (map Fin a) (repeat NaN d) = NaN.
Proof. intros Hne <-. by destruct a. Qed.

(** *** The stable descending sort *)

Lemma fle_refl x : is_fin x = true -> fle x x = true.
Proof.
  destruct x as [q|]; [|done]. intros _. simpl.
  apply Qle_bool_iff, Qle_refl.
Qed.

Lemma fle_trans x y z : fle x y = true -> fle y z = true -> fle x z = true.
Proof.
  destruct x, y, z; simpl; try done.
  rewrite !Qle_bool_iff. apply Qle_trans.
Qed.

Lemma fle_total x y :
  is_fin x = true -> is_fin y = true -> fle x y = false -> fle y x = true.
Proof.
  destruct x as [a|], y as [b|]; simpl; try done. intros _ _ H.
  apply Qle_bool_iff. destruct (Qlt_le_dec b a) as [Hlt|Hle].
  - by apply Qlt_le_weak.
  - apply Qle_bool_iff in Hle. congruence.
Qed.

Lemma insert_ranked_perm e l : Permutation (insert_ranked e l) (e :: l).
Proof.
  induction l as [|x l IH]; simpl; [done|].
  destruct (fle (score x) (score e)); [done|].
  rewrite IH. apply perm_swap.
Qed.

Lemma sort_ranked_perm l : Permutation (sort_ranked l) l.
Proof.
  induction l as [|e l IH]; simpl; [done|].
  rewrite insert_ranked_perm. by constructor.
Qed.

Lemma insert_ranked_sorted e l :
  is_fin (score e) = true -> finite_scores l ->
  Forall (fun y => corpus_id e < corpus_id y) l ->
  StronglySorted ranks_before l ->
  StronglySorted ranks_before (insert_ranked e l).
Proof.
  intros He Hfin Hid Hs.
  induction Hs as [|x l Hs IH Hx]; simpl.
  - repeat constructor.
  - inversion Hfin as [|? ? Hfx Hfl]; subst.
    inversion Hid as [|? ? Hix Hil]; subst.
    destruct (fle (score x) (score e)) eqn:Hle.
    + constructor; [by constructor|].
      constructor; [by split|].
      apply List.Forall_forall. intros y Hy.
      rewrite List.Forall_forall in Hx, Hil. split.
      * eapply fle_trans; [apply (Hx y Hy) | exact Hle].
      * intros _. by apply Hil.
    + constructor; [by apply IH|].
      rewrite insert_ranked_perm. constructor; [|done]. split.
      * by apply fle_total.
      * intros Heq. rewrite Heq, fle_refl in Hle; [done|]. by rewrite <- Heq.
Qed.

Lemma Forall_sort_ranked (P : RankedEntry -> Prop) l :
  Forall P l -> Forall P (sort_ranked l).
Proof. intros H. by rewrite sort_ranked_perm. Qed.

(** Entries listed by ascending corpus position, all with a finite score,
    come out of the sort ranked. *)
Lemma sort_ranked_sorted l :
  finite_scores l ->
  StronglySorted (fun a b => corpus_id a < corpus_id b) l ->
  StronglySorted ranks_before (sort_ranked l).
Proof.
  intros Hfin Hasc. induction Hasc as [|e l Hasc IH He]; simpl.
  - constructor.
  - inversion Hfin; subst. apply insert_ranked_sorted; try done.
    + by apply Forall_sort_ranked.
    + by apply Forall_sort_ranked.
    + by apply IH.
Qed.

Lemma StronglySorted_lookup {A} (R : A -> A -> Prop) (l : list A) i j x y :
  StronglySorted R l -> i < j -> l !! i = Some x -> l !! j = Some y -> R x y.
Proof.
  intros Hs. revert i j. induction Hs as [|a l Hs IH Ha]; intros i j Hij Hi Hj.
  - done.
  - destruct j as [|j]; [lia|]. destruct i as [|i]; simpl in *.
    + inversion Hi; subst. rewrite List.Forall_forall in Ha. apply Ha.
      apply list_elem_of_In. by eapply list_elem_of_lookup_2.
    + apply (IH i j); [lia|done..].
Qed.

Lemma score_all_from (q : vec) (corpus : list vec) (k : nat) :
  let l := imap (fun i row => {| corpus_id := k + i; score := cos_sim q row |}) corpus in
  map corpus_id l = seq k (length corpus) /\
  map score l = map (cos_sim q) corpus /\
  Forall (fun e => k <= corpus_id e) l /\
  StronglySorted (fun a b => corpus_id a < corpus_id b) l.
Proof.
  revert k. induction corpus as [|row corpus IH]; intros k; simpl.
  - repeat split; constructor.
  - destruct (IH (S k)) as (Hid & Hsc & Hge & Hs).
    rewrite (imap_ext _ (fun i row => {| corpus_id := S k + i; score := cos_sim q row |}))
      by (intros; simpl; f_equal; lia).
    rewrite Nat.add_0_r, Hid, Hsc. repeat split.
    + constructor; [simpl; lia|]. eapply Forall_impl; [exact Hge|]. simpl; lia.
    + constructor; [done|]. eapply Forall_impl; [exact Hge|]. simpl; lia.
Qed.

(** With finite scores, the full-size search result is a total ranking. *)
Lemma search_total_ranking (q : vec) (corpus : list vec) :
  Forall (fun row => is_fin (cos_sim q row) = true) corpus ->
  total_ranking (length corpus) (sort_ranked (score_all q corpus)).
Proof.
  intros Hfin.
  destruct (score_all_from q corpus 0) as (Hid & Hsc & _ & Hasc).
  change (imap _ corpus) with (score_all q corpus) in *.
  split.
  - by rewrite sort_ranked_perm, Hid.
  - intros i j ei ej Hij Hi Hj.
    eapply (StronglySorted_lookup ranks_before); [|exact Hij|exact Hi|exact Hj].
    apply sort_ranked_sorted; [|done].
    unfold finite_scores.
    assert (H1 : Forall (fun s => is_fin s = true) (map (cos_sim q) corpus))
      by (by apply List.Forall_map).
    rewrite <- Hsc in H1. by apply List.Forall_map in H1.
Qed.

(** *** Runs of the fitness engine *)

Lemma compute_fitness_world query keys args w :
  snd (compute_fitness query keys args w)
  = snd (corpus_embedding keys args (log (EvEncode [query]) w)).
Proof.
  unfold compute_fitness, bind, model_encode, bind, emit, ret. simpl.
  destruct (corpus_embedding keys args (log (EvEncode [query]) w))
    as [[corpus|e] w']; [|done].
  destruct (flat_corpus keys args); [|done].
  unfold lift, semantic_search_flat. by case_bool_decide.
Qed.

Lemma compute_fitness_unfold query keys args w :
  flat_corpus keys args = false ->
  compute_fitness query keys args w
  = match corpus_embedding keys args (log (EvEncode [query]) w) with
    | (Ok corpus, w') =>
        (Ok (take (author_count keys) (sort_ranked (score_all (embed query) corpus))),
         w')
    | (Raise e, w') => (Raise e, w')
    end.
Proof.
  intros Hflat.
  unfold compute_fitness, bind, model_encode, bind, emit, ret. simpl.
  rewrite Hflat.
  by destruct (corpus_embedding keys args (log (EvEncode [query]) w)) as [[corpus|e] w'].
Qed.

Lemma compute_fitness_flat query keys args w :
  flat_corpus keys args = true ->
  compute_fitness query keys args w
  = match corpus_embedding keys args (log (EvEncode [query]) w) with
    | (Ok corpus, w') =>
        (if bool_decide (length corpus = dim)
         then Ok [ {| corpus_id := 0; score := NaN |} ]
         else Raise RuntimeError, w')
    | (Raise e, w') => (Raise e, w')
    end.
Proof.
  intros Hflat.
  unfold compute_fitness, bind, model_encode, bind, emit, ret. simpl.
  rewrite Hflat.
  destruct (corpus_embedding keys args (log (EvEncode [query]) w))
    as [[corpus|e] w']; [|done].
  unfold lift, semantic_search_flat. by case_bool_decide.
Qed.

Lemma not_flat_summarize keys args :
  author_embedding args <> "aggregate" -> flat_corpus keys args = false.
Proof. intros H. unfold flat_corpus. by rewrite bool_decide_eq_false_2. Qed.

Lemma not_flat_if_summarize keys args :
  author_embedding args = "summarize" -> flat_corpus keys args = false.
Proof. intros H. apply not_flat_summarize. by rewrite H. Qed.

Lemma not_flat_publications (l : list (list Publication)) args :
  concat l <> [] -> flat_corpus (PubLists l) args = false.
Proof.
  intros H. unfold flat_corpus, batch_is_empty.
  rewrite (bool_decide_eq_false_2 (concat l = [])) by done. apply andb_false_r.
Qed.

Lemma concat_nonempty {A} (l : list (list A)) :
  Exists (fun x => x <> []) l -> concat l <> [].
Proof.
  induction 1 as [x l Hx|x l _ IH]; simpl; intros E;
    apply app_eq_nil in E as [? ?]; auto.
Qed.

Lemma compute_fitness_ok query keys args w corpus w' :
  flat_corpus keys args = false ->
  corpus_embedding keys args (log (EvEncode [query]) w) = (Ok corpus, w') ->
  length corpus = author_count keys ->
  compute_fitness query keys args w
  = (Ok (sort_ranked (score_all (embed query) corpus)), w').
Proof.
  intros Hflat Hc Hlen. rewrite compute_fitness_unfold, Hc by done. do 2 f_equal.
  apply take_ge.
  rewrite (Permutation_length (sort_ranked_perm _)).
  unfold score_all. rewrite length_imap. lia.
Qed.

Lemma summarize_run (summaries : list string) args w :
  author_embedding args = "summarize" ->
  corpus_embedding (Summaries summaries) args w
  = (Ok (map embed summaries), log (EvEncode summaries) w).
Proof. intros H. unfold corpus_embedding. by rewrite H. Qed.

Lemma aggregate_run (list_of_authors : list (list Publication)) args w :
  author_embedding args = "aggregate" ->
  corpus_embedding (PubLists list_of_authors) args w
  = aggregate_embedding list_of_authors w.
Proof. intros H. unfold corpus_embedding. by rewrite H. Qed.

Lemma unknown_policy_run keys args w :
  author_embedding args ∉ choices ->
  corpus_embedding keys args w = (Raise NotImplementedError, w).
Proof.
  intros H. unfold corpus_embedding, choices in *.
  rewrite !bool_decide_eq_false_2; [done|..]; intros E; apply H; rewrite E.
  - apply list_elem_of_further, list_elem_of_here.
  - apply list_elem_of_here.
Qed.

Lemma elem_of_sorted_scores (q : vec) (corpus : list vec) (e : RankedEntry) :
  e ∈ sort_ranked (score_all q corpus) <->
  exists row, corpus !! corpus_id e = Some row /\ score e = cos_sim q row.
Proof.
  rewrite sort_ranked_perm. unfold score_all. rewrite elem_of_lookup_imap.
  split.
  - intros (i & row & -> & Hrow). by exists row.
  - intros (row & Hrow & Hs). exists (corpus_id e), row. split; [|done].
    destruct e; simpl in *; by subst.
Qed.

Lemma author_mean_fin (pubs : list Publication) :
  pubs <> [] ->
  torch_mean dim (map embed (map pub_text pubs))
  = map Fin (arith_mean dim (map (fun p => encode (pub_text p)) pubs)).
Proof.
  intros Hne.
  replace (map embed (map pub_text pubs))
    with (map (map Fin) (map (fun p => encode (pub_text p)) pubs))
    by (rewrite !map_map; done).
  apply torch_mean_fin.
  - by destruct pubs.
  - apply List.Forall_map, List.Forall_forall. intros p _. apply encode_dim.
Qed.

Lemma encode_nonempty (s : string) : encode s <> [].
Proof.
  intros E. pose proof (encode_unit s) as H. rewrite E in H. by vm_compute in H.
Qed.

Lemma embed_dot_fin (s t : string) :
  cos_sim (embed s) (embed t) = Fin (qdot (encode s) (encode t)).
Proof. apply dot_fin. Qed.

Lemma aggregate_rows_finite (list_of_authors : list (list Publication)) (q : string) :
  Forall (fun pubs => pubs <> []) list_of_authors ->
  Forall (fun row => is_fin (cos_sim (embed q) row) = true)
    (map (fun pubs => torch_mean dim (map embed (map pub_text pubs))) list_of_authors).
Proof.
  intros H. apply List.Forall_map. eapply Forall_impl; [exact H|].
  intros pubs Hne. simpl. rewrite author_mean_fin by done.
  unfold embed. by rewrite dot_fin.
Qed.

(** C1 (as amended).  For a non-empty pool, with at least one publication per
    author when the policy is "aggregate", [compute_fitness] returns a
    ranking that lists every author index once, by non-increasing score,
    equal scores by ascending index. *)
Theorem compute_fitness_total_ranking
    (query : string) (keys : author_keys) (args : Args) (w : world) :
  0 < author_count keys ->
  match keys with
  | Summaries _ => author_embedding args = "summarize"
  | PubLists l =>
      author_embedding args = "aggregate" /\ Forall (fun pubs => pubs <> []) l
  end ->
  exists r,
    fst (compute_fitness query keys args w) = Ok r /\
    total_ranking (author_count keys) r.
Proof.
  intros Hn Hin. destruct keys as [l|l]; simpl in *.
  - eexists. split.
    + erewrite compute_fitness_ok;
        [reflexivity | by apply not_flat_if_summarize | by apply summarize_run
         | apply length_map].
    + rewrite <- (length_map embed l). apply search_total_ranking.
      apply List.Forall_map, List.Forall_forall. intros s _.
      by rewrite embed_dot_fin.
  - destruct Hin as [Hpol Hne]. eexists. split.
    + erewrite compute_fitness_ok; [reflexivity | | | apply length_map].
      * apply not_flat_publications, concat_nonempty.
        destruct l as [|pubs l]; [simpl in Hn; lia|].
        inversion Hne; subst. by constructor.
      * rewrite aggregate_run, aggregate_embedding_run by done.
        destruct l; [simpl in Hn; lia | reflexivity].
    + rewrite <- (length_map
        (fun pubs => torch_mean dim (map embed (map pub_text pubs))) l) at 1.
      apply search_total_ranking. by apply aggregate_rows_finite.
Qed.

(** Under "aggregate" the row of an author with publications is the
    arithmetic mean of that author's publication embeddings, as it is. *)
Lemma aggregate_row_is_mean
    (list_of_authors : list (list Publication)) (args : Args) (i : nat)
    (pubs : list Publication) (w : world) :
  author_embedding args = "aggregate" ->
  list_of_authors !! i = Some pubs -> pubs <> [] ->
  exists rows,
    fst (corpus_embedding (PubLists list_of_authors) args w) = Ok rows /\
    rows !! i
    = Some (map Fin (arith_mean dim (map (fun p => encode (pub_text p)) pubs))).
Proof.
  intros Hpol Hi Hne. eexists. split.
  - rewrite aggregate_run, aggregate_embedding_run by done.
    destruct list_of_authors; [done | reflexivity].
  - rewrite lookup_map, Hi. simpl. by rewrite author_mean_fin.
Qed.

(** C4.  Under "summarize" the ranking has one entry per author, and the
    score of an author's entry is the dot product of the query embedding with
    the embedding of that author's summary, two vectors of norm 1; it lies
    between -1 and 1. *)
Theorem summarize_scores_are_cosines
    (query : string) (summaries : list string) (args : Args) (w : world) :
  author_embedding args = "summarize" ->
  exists r,
    fst (compute_fitness query (Summaries summaries) args w) = Ok r /\
    Permutation (map corpus_id r) (seq 0 (length summaries)) /\
    forall e, e ∈ r ->
      exists s,
        summaries !! corpus_id e = Some s /\
        sqnorm (encode query) = 1%Qc /\ sqnorm (encode s) = 1%Qc /\
        score e = Fin (qdot (encode query) (encode s)) /\
        (- (1) <= qdot (encode query) (encode s))%Qc /\
        (qdot (encode query) (encode s) <= 1)%Qc.
Proof.
  intros Hpol. eexists. split; [|split].
  - erewrite compute_fitness_ok;
      [reflexivity | by apply not_flat_if_summarize | by apply summarize_run
       | apply length_map].
  - rewrite sort_ranked_perm.
    destruct (score_all_from (embed query) (map embed summaries) 0) as (Hid & _).
    change (imap _ (map embed summaries))
      with (score_all (embed query) (map embed summaries)) in Hid.
    by rewrite Hid, length_map.
  - intros e He. apply elem_of_sorted_scores in He as (row & Hrow & Hs).
    rewrite lookup_map in Hrow.
    destruct (summaries !! corpus_id e) as [s|]; [|done].
    injection Hrow as <-. exists s. rewrite embed_dot_fin in Hs.
    pose proof (unit_dot_bounds _ _ (encode_unit query) (encode_unit s)) as [? ?].
    by repeat split.
Qed.

(** C10 (as amended).  Under "aggregate", in a pool that holds at least one
    publication, an author without publications gets an empty slice of the
    batch, hence a row of NaNs and a NaN score; no error is raised.  All
    scores are numbers exactly when every author has a publication. *)
Theorem empty_publication_list_gives_nan
    (query : string) (list_of_authors : list (list Publication))
    (args : Args) (w : world) :
  author_embedding args = "aggregate" -> concat list_of_authors <> [] ->
  exists rows r,
    fst (corpus_embedding (PubLists list_of_authors) args w) = Ok rows /\
    fst (compute_fitness query (PubLists list_of_authors) args w) = Ok r /\
    (forall i, list_of_authors !! i = Some [] ->
       (exists l h,
          fst (slice_bounds list_of_authors) !! i = Some l /\
          snd (slice_bounds list_of_authors) !! i = Some h /\
          slice l h (map embed (map pub_text (concat list_of_authors))) = []) /\
       rows !! i = Some (repeat NaN dim) /\ 0 < dim /\
       exists e, e ∈ r /\ corpus_id e = i /\ score e = NaN) /\
    (finite_scores r <-> Forall (fun pubs => pubs <> []) list_of_authors).
Proof.
  intros Hpol Hbatch.
  assert (Hne : list_of_authors <> []) by (by intros ->).
  set (rows := map (fun pubs => torch_mean dim (map embed (map pub_text pubs)))
                   list_of_authors).
  assert (Hrows : forall w0, corpus_embedding (PubLists list_of_authors) args w0
                  = (Ok rows, log (EvEncode (map pub_text (concat list_of_authors))) w0)).
  { intros w0. rewrite aggregate_run, aggregate_embedding_run by done.
    by destruct list_of_authors. }
  assert (Hr : compute_fitness query (PubLists list_of_authors) args w
               = (Ok (sort_ranked (score_all (embed query) rows)),
                  log (EvEncode (map pub_text (concat list_of_authors)))
                      (log (EvEncode [query]) w))).
  { apply compute_fitness_ok;
      [by apply not_flat_publications | apply Hrows | apply length_map]. }
  assert (Hnan : forall i, list_of_authors !! i = Some [] ->
                 rows !! i = Some (repeat NaN dim)).
  { intros i Hi. unfold rows. rewrite lookup_map, Hi. simpl.
    by rewrite torch_mean_empty. }
  assert (Hscore : cos_sim (embed query) (repeat NaN dim) = NaN).
  { apply dot_fin_nan; [apply encode_nonempty | apply encode_dim]. }
  exists rows, (sort_ranked (score_all (embed query) rows)).
  rewrite Hrows, Hr. repeat split; try done.
  - by apply (author_slice list_of_authors i []).
  - by apply Hnan.
  - rewrite <- (encode_dim query). pose proof (encode_nonempty query).
    destruct (encode query); [done | simpl; lia].
  - exists {| corpus_id := i; score := NaN |}. split; [|done].
    apply elem_of_sorted_scores. exists (repeat NaN dim). split; [|done].
    by apply Hnan.
  - intros Hfin. apply List.Forall_forall. intros pubs Hin ->.
    apply list_elem_of_In, list_elem_of_lookup in Hin as [i Hi].
    unfold finite_scores in Hfin. rewrite List.Forall_forall in Hfin.
    specialize (Hfin {| corpus_id := i; score := NaN |}).
    enough (is_fin NaN = true) by done. apply Hfin.
    apply list_elem_of_In, elem_of_sorted_scores.
    exists (repeat NaN dim). split; [by apply Hnan | done].
  - intros Hall. unfold finite_scores. apply List.Forall_forall. intros e He.
    apply list_elem_of_In, elem_of_sorted_scores in He as (row & Hrow & ->).
    pose proof (aggregate_rows_finite list_of_authors query Hall) as Hf.
    fold rows in Hf. rewrite List.Forall_forall in Hf. apply Hf.
    apply list_elem_of_In. by eapply list_elem_of_lookup_2.
Qed.

Lemma compute_fitness_unknown_policy query keys args w :
  author_embedding args ∉ choices ->
  compute_fitness query keys args w
  = (Raise NotImplementedError, log (EvEncode [query]) w).
Proof.
  intros H. rewrite compute_fitness_unfold, unknown_policy_run; [done..|].
  apply not_flat_summarize. intros E. apply H. rewrite E. apply list_elem_of_here.
Qed.

(** *** Runs of the orchestration *)

Lemma bind_ok {A B} (m : M A) (k : A -> M B) w b w' :
  bind m k w = (Ok b, w') ->
  exists a w1, m w = (Ok a, w1) /\ k a w1 = (Ok b, w').
Proof.
  unfold bind. destruct (m w) as [[a|e] w1]; intros H; [eauto | discriminate].
Qed.

Lemma lift_ok {A} (r : result A) w a w' :
  lift r w = (Ok a, w') -> r = Ok a /\ w' = w.
Proof. unfold lift. intros [= -> ->]. done. Qed.

Lemma get_args_ok argv w args w' :
  get_args argv w = (Ok args, w') ->
  args = argv /\ w' = w /\ author_embedding argv ∈ choices.
Proof.
  unfold get_args. case_bool_decide as H; [|discriminate].
  intros [= <- <-]. done.
Qed.

Lemma length_sort_ranked l : length (sort_ranked l) = length l.
Proof. apply Permutation_length, sort_ranked_perm. Qed.

Lemma length_score_all q corpus : length (score_all q corpus) = length corpus.
Proof. unfold score_all. apply length_imap. Qed.

Lemma choices_cases (policy : string) :
  policy ∈ choices -> policy = "aggregate" \/ policy = "summarize".
Proof using.
  unfold choices. rewrite !elem_of_cons, elem_of_nil.
  intros [->|[->|[]]]; [by left | by right].
Qed.

(** In [main] the ranking has one entry per author of the database. *)
Lemma length_search_result q corpus n :
  length corpus = n ->
  length (take n (sort_ranked (score_all q corpus))) = n.
Proof.
  intros H. rewrite length_take, length_sort_ranked, length_score_all. lia.
Qed.

Lemma compute_fitness_main_length args database query w r w' :
  author_embedding args ∈ choices ->
  compute_fitness query (select_keys args database) args w = (Ok r, w') ->
  (length r = length database \/ Exists (fun e => score e = NaN) r) /\
  fs w' = fs w.
Proof.
  intros Hc. apply choices_cases in Hc as [Hp|Hp]; unfold select_keys; rewrite Hp.
  - change (bool_decide ("aggregate" = "summarize")) with false. cbn iota.
    destruct (flat_corpus (PubLists (map list_of_pubs database)) args) eqn:Hflat.
    + rewrite compute_fitness_flat, aggregate_run, aggregate_embedding_run by done.
      destruct (map list_of_pubs database) as [|x l] eqn:E; [discriminate|].
      rewrite <- E. case_bool_decide; [|discriminate].
      intros [= <- <-]. split; [|done]. right. by constructor.
    + rewrite compute_fitness_unfold, aggregate_run, aggregate_embedding_run by done.
      destruct (map list_of_pubs database) as [|x l] eqn:E; [discriminate|].
      rewrite <- E. intros [= <- <-]. split; [|done]. left.
      rewrite length_search_result; cbn [author_count]; by rewrite !length_map.
  - change (bool_decide ("summarize" = "summarize")) with true. cbn iota.
    rewrite compute_fitness_unfold, summarize_run
      by (done || by apply not_flat_if_summarize).
    intros [= <- <-]. split; [|done]. left.
    rewrite length_search_result; cbn [author_count]; by rewrite !length_map.
Qed.

Lemma justify_loop_cons query_dict database args item rest results w :
  justify_loop query_dict database args (item :: rest) results w
  = match database !! corpus_id item with
    | None => (Raise IndexError, w)
    | Some author =>
        match py_round (fmul (score item) (Fin (Qc_of_nat 100))) with
        | Raise e => (Raise e, w)
        | Ok percent =>
            let w1 := log (EvJustify query_dict (summary author) percent) w in
            match generate_justification query_dict (summary author) percent args with
            | Raise e => (Raise e, w1)
            | Ok reason =>
                justify_loop query_dict database args rest
                  (results ++ [{| res_name := name author;
                                  fitness := score item;
                                  explanation := reason |}]) w1
            end
        end
    end.
Proof.
  cbn [justify_loop]. unfold bind at 1, lift at 1, db_get.
  destruct (database !! corpus_id item) as [author|]; [|done].
  unfold bind at 1, lift at 1.
  destruct (py_round _) as [percent|e]; [|done].
  unfold bind at 1, call_justification, bind at 1, emit, lift.
  by destruct (generate_justification _ _ _ _).
Qed.

(** What any run of the loop does: calls for a prefix of the ranking, in
    rank order; on success the prefix is everything and the results line up
    with the entries. *)
Lemma justify_loop_spec query_dict database args items results w :
  exists k evs,
    k <= length items /\
    map Some evs = map (justification_call query_dict database) (take k items) /\
    snd (justify_loop query_dict database args items results w)
    = {| fs := fs w; trace := trace w ++ evs |} /\
    match fst (justify_loop query_dict database args items results w) with
    | Ok out =>
        k = length items /\
        exists new, out = results ++ new /\
                    Forall2 (justified query_dict database args) items new
    | Raise _ => True
    end.
Proof.
  revert results w. induction items as [|item rest IH]; intros results w.
  - exists 0, []. cbn [justify_loop ret fst snd length take map].
    split; [lia|]. split; [done|]. split.
    + destruct w; simpl; by rewrite app_nil_r.
    + split; [done|]. exists []. split; [by rewrite app_nil_r | constructor].
  - rewrite justify_loop_cons.
    destruct (database !! corpus_id item) as [author|] eqn:Hdb.
    2: { exists 0, []. cbn. split; [lia|]. split; [done|]. split; [|done].
         destruct w; simpl; by rewrite app_nil_r. }
    destruct (py_round (fmul (score item) (Fin (Qc_of_nat 100))))
      as [percent|e] eqn:Hround.
    2: { exists 0, []. cbn. split; [lia|]. split; [done|]. split; [|done].
         destruct w; simpl; by rewrite app_nil_r. }
    assert (Hcall : justification_call query_dict database item
                    = Some (EvJustify query_dict (summary author) percent))
      by (unfold justification_call; by rewrite Hdb, Hround).
    cbv zeta.
    destruct (generate_justification query_dict (summary author) percent args)
      as [reason|e] eqn:Hgen.
    2: { exists 1, [EvJustify query_dict (summary author) percent].
         cbn [length take map fst snd]. rewrite Hcall.
         split; [lia|]. by split. }
    destruct (IH (results ++ [{| res_name := name author;
                                 fitness := score item;
                                 explanation := reason |}])
                 (log (EvJustify query_dict (summary author) percent) w))
      as (k & evs & Hk & Hevs & Hsnd & Hfst).
    exists (S k), (EvJustify query_dict (summary author) percent :: evs).
    split; [simpl; lia|]. split; [|split].
    + cbn [take map]. by rewrite Hcall, Hevs.
    + rewrite Hsnd. cbn [log fs trace]. by rewrite <- app_assoc.
    + destruct (fst (justify_loop _ _ _ rest _ _)) as [out|]; [|done].
      destruct Hfst as (-> & new & -> & Hall). split; [done|].
      eexists (_ :: new). split; [by rewrite <- app_assoc|].
      constructor; [|done]. exists author, percent. by repeat split.
Qed.

Lemma justify_loop_total query_dict database args items results w :
  Forall (fun e => exists item, justified query_dict database args e item) items ->
  exists out, fst (justify_loop query_dict database args items results w) = Ok out.
Proof.
  intros Hall. revert results w.
  induction Hall as [|item rest (r & author & percent & Hdb & Hround & Hgen & _) _ IH];
    intros results w.
  - by exists results.
  - rewrite justify_loop_cons, Hdb, Hround. cbv zeta. rewrite Hgen. apply IH.
Qed.

(** *** Text files and paths *)

Lemma append_cons (c : ascii) (x y : string) :
  String c x +:+ y = String c (x +:+ y).
Proof. reflexivity. Qed.

Lemma length_append (x y : string) :
  String.length (x +:+ y) = String.length x + String.length y.
Proof.
  induction x as [|c x IH]; [done|]. rewrite append_cons. simpl. by rewrite IH.
Qed.

Lemma append_assoc (x y z : string) : (x +:+ y) +:+ z = x +:+ (y +:+ z).
Proof.
  induction x as [|c x IH]; [done|]. rewrite !append_cons. by rewrite IH.
Qed.

(** Two texts that end in suffixes of one length end in the same suffix. *)
Lemma append_suffix_inj (x y s t : string) :
  x +:+ s = y +:+ t -> String.length s = String.length t -> s = t.
Proof.
  intros H Hlen.
  assert (Hxy : String.length x = String.length y).
  { apply (f_equal String.length) in H. rewrite !length_append in H. lia. }
  clear Hlen. revert y H Hxy.
  induction x as [|c x IH]; intros [|c' y] H Hxy; simpl in *; try done.
  rewrite !append_cons in H. injection H as _ H. apply (IH y); [done | lia].
Qed.

Lemma file_iter_line (x rest : string) :
  has_newline x = false ->
  file_iter ((x +:+ nl) +:+ rest) = (x +:+ nl) :: file_iter rest.
Proof.
  induction x as [|c x IH]; intros H.
  - done.
  - cbn [has_newline] in H. apply orb_false_iff in H as [Hc Hx].
    rewrite !append_cons. cbn [file_iter]. rewrite Hc. by rewrite IH.
Qed.

Lemma file_iter_output_text (results : list Result) :
  file_iter (output_text results) = map (fun item => json_dumps item +:+ nl) results.
Proof.
  induction results as [|item rest IH]; [done|].
  cbn [output_text map]. rewrite file_iter_line by apply json_dumps_one_line.
  by rewrite IH.
Qed.

Lemma output_file_suffix (args : Args) :
  exists dir, output_file args
              = dir +:+ ("output_" +:+ author_embedding args +:+ ".txt").
Proof.
  unfold output_file, os_path_join.
  change (starts_with_slash ("output_" +:+ author_embedding args +:+ ".txt"))
    with false. cbn iota.
  destruct (_ || _).
  - by eexists.
  - exists (output_path args +:+ "/"). by rewrite append_assoc.
Qed.

Lemma output_files_differ (a1 a2 : Args) :
  author_embedding a1 = "aggregate" -> author_embedding a2 = "summarize" ->
  output_file a1 <> output_file a2.
Proof.
  intros H1 H2 E.
  destruct (output_file_suffix a1) as [d1 E1].
  destruct (output_file_suffix a2) as [d2 E2].
  rewrite E1, E2, H1, H2 in E. apply append_suffix_inj in E; done.
Qed.

(** *** The claims on the orchestration *)

Lemma load_author_profile_hit args w c :
  fs w !! cache_file = Some c ->
  load_author_profile args w = (json_loads_profile c, log (EvRead cache_file) w).
Proof.
  intros H. unfold load_author_profile, bind at 1, os_path_exists.
  rewrite bool_decide_eq_true_2 by (by rewrite H). cbn [negb].
  unfold bind, open_read, lift. by rewrite H.
Qed.

(** C5.  When the cache file exists, the author profiles are what
    deserialising it gives: the same for any two runs that find the same
    cache content, whatever the arguments and the rest of the file system;
    the load reads the cache file and nothing else, and writes nothing.  The
    query load that [main] does first does not change this. *)
Theorem cache_hit_ignores_database
    (args1 args2 : Args) (w1 w2 : world) (c : string) :
  fs w1 !! cache_file = Some c -> fs w2 !! cache_file = Some c ->
  fst (load_author_profile args1 w1) = json_loads_profile c /\
  fst (load_author_profile args2 w2) = fst (load_author_profile args1 w1) /\
  new_events (load_author_profile args1) w1 = [EvRead cache_file] /\
  fs (snd (load_author_profile args1 w1)) = fs w1 /\
  (forall query_dict w',
      load_query args1 w1 = (Ok query_dict, w') ->
      fst (load_author_profile args1 w') = json_loads_profile c).
Proof.
  intros H1 H2. unfold new_events.
  rewrite (load_author_profile_hit args1 w1 c H1).
  rewrite (load_author_profile_hit args2 w2 c H2).
  cbn [fst snd log trace fs]. rewrite drop_app_length. repeat split.
  intros query_dict w' Hq. unfold load_query in Hq.
  apply bind_ok in Hq as (content & w0 & Hread & Hl).
  apply lift_ok in Hl as [_ ->]. unfold open_read in Hread.
  destruct (fs w1 !! query_path args1); [|discriminate].
  injection Hread as _ <-.
  by rewrite (load_author_profile_hit args1 (log _ w1) c H1).
Qed.

(** C6 (as amended).  For a policy outside "aggregate" and "summarize",
    [compute_fitness] raises NotImplementedError once the query is embedded,
    before any author text is embedded or compared; [main] stops in
    [get_args] and leaves the file system as it was, so no output file is
    written. *)
Theorem unknown_policy_is_fatal
    (query : string) (keys : author_keys) (argv : Args) (w : world) :
  author_embedding argv ∉ choices ->
  compute_fitness query keys argv w
  = (Raise NotImplementedError, log (EvEncode [query]) w) /\
  main argv w = (Raise (SystemExit 2), w).
Proof.
  intros H. split; [by apply compute_fitness_unknown_policy|].
  unfold main, bind, get_args. by rewrite bool_decide_eq_false_2.
Qed.

(** C8 (as amended).  The loop calls the justification service for a prefix
    of the ranking, one call per entry, in rank order, each with the score
    times 100 rounded; when the loop returns, the prefix is the whole ranking
    and every result keeps the unrounded score; it returns whenever every
    entry resolves, rounds and gets an answer. *)
Theorem justification_calls_follow_ranking
    (query_dict : gmap string string) (database : list Author) (args : Args)
    (ranking : list RankedEntry) (w : world) :
  let run := justify_loop query_dict database args ranking [] in
  (exists k, k <= length ranking /\
     map Some (new_events run w)
     = map (justification_call query_dict database) (take k ranking)) /\
  (forall results, fst (run w) = Ok results ->
     map Some (new_events run w)
     = map (justification_call query_dict database) ranking /\
     Forall2 (justified query_dict database args) ranking results) /\
  (Forall (fun e => exists item, justified query_dict database args e item) ranking ->
   exists results, fst (run w) = Ok results).
Proof.
  intros run.
  destruct (justify_loop_spec query_dict database args ranking [] w)
    as (k & evs & Hk & Hevs & Hsnd & Hfst). fold run in Hsnd, Hfst.
  assert (Hnew : new_events run w = evs).
  { unfold new_events. rewrite Hsnd. cbn [trace]. apply drop_app_length. }
  rewrite Hnew. split; [|split].
  - by exists k.
  - intros results Hres. rewrite Hres in Hfst.
    destruct Hfst as (-> & new & Hout & Hall). simpl in Hout. subst new.
    by rewrite firstn_all in Hevs.
  - apply justify_loop_total.
Qed.

Lemma justified_finite query_dict database args e item :
  justified query_dict database args e item ->
  fitness item = score e /\ is_fin (score e) = true.
Proof.
  intros (author & percent & _ & Hround & _ & _ & Hfit). split; [done|].
  by destruct (score e).
Qed.

Lemma justify_loop_finite query_dict database args ranking w results :
  fst (justify_loop query_dict database args ranking [] w) = Ok results ->
  Forall2 (fun e item => fitness item = score e /\ is_fin (score e) = true)
          ranking results.
Proof.
  intros H.
  destruct (justify_loop_spec query_dict database args ranking [] w)
    as (k & evs & _ & _ & _ & Hfst).
  rewrite H in Hfst. destruct Hfst as (_ & new & -> & Hall).
  eapply Forall2_impl; [exact Hall|]. intros e item. apply justified_finite.
Qed.

Lemma justify_loop_nan query_dict database args ranking w :
  Exists (fun e => score e = NaN) ranking ->
  exists e, fst (justify_loop query_dict database args ranking [] w) = Raise e.
Proof.
  intros Hex.
  destruct (fst (justify_loop query_dict database args ranking [] w))
    as [results|e] eqn:H; [|by exists e].
  apply justify_loop_finite in H. exfalso.
  apply List.Exists_exists in Hex as (e & Hin & Hnan).
  apply list_elem_of_In, list_elem_of_lookup in Hin as [i Hi].
  destruct (Forall2_lookup_l _ _ _ _ _ H Hi) as (item & _ & _ & Hfin).
  by rewrite Hnan in Hfin.
Qed.

Lemma rank_and_justify_ok args query_dict database w ranking results w' :
  author_embedding args ∈ choices ->
  rank_and_justify args query_dict database w = (Ok (ranking, results), w') ->
  length ranking = length database /\
  Forall2 (justified query_dict database args) ranking results.
Proof.
  intros Hch H. unfold rank_and_justify in H.
  apply bind_ok in H as (query & w1 & _ & H).
  apply bind_ok in H as (r & w2 & Hcf & H).
  apply bind_ok in H as (out & w3 & Hjl & H).
  injection H as -> -> _.
  split.
  - destruct (compute_fitness_main_length _ _ _ _ _ _ Hch Hcf) as [[Hlen|Hnan] _];
      [done|].
    destruct (justify_loop_nan query_dict database args ranking w2 Hnan) as [e He].
    rewrite Hjl in He. discriminate He.
  - destruct (justify_loop_spec query_dict database args ranking [] w2)
      as (k & evs & _ & _ & _ & Hfst).
    rewrite Hjl in Hfst. by destruct Hfst as (_ & new & -> & Hall).
Qed.

(** C7.  A run of [main] that completes leaves, at a path made of the output
    directory and "output_<policy>.txt", a file whose lines are the JSON
    texts of the results, one per author, in the order of the ranking; the
    path for one recognised policy is never the path for the other. *)
Theorem output_file_lists_results_in_rank_order (argv : Args) (w w' : world) :
  main argv w = (Ok tt, w') ->
  exists query_dict database ranking results w1 w2 w3,
    load_query argv w = (Ok query_dict, w1) /\
    load_author_profile argv w1 = (Ok database, w2) /\
    rank_and_justify argv query_dict database w2 = (Ok (ranking, results), w3) /\
    length ranking = length database /\
    Forall2 (justified query_dict database argv) ranking results /\
    fs w' !! output_file argv = Some (output_text results) /\
    file_iter (output_text results)
    = map (fun item => json_dumps item +:+ nl) results /\
    length (file_iter (output_text results)) = length database /\
    (forall other,
       author_embedding other ∈ choices ->
       author_embedding other <> author_embedding argv ->
       output_file other <> output_file argv).
Proof.
  intros H. unfold main in H.
  apply bind_ok in H as (args & w0 & Hga & H).
  apply get_args_ok in Hga as (-> & -> & Hch).
  apply bind_ok in H as (query_dict & w1 & Hq & H).
  apply bind_ok in H as (database & w2 & Hdb & H).
  apply bind_ok in H as ([ranking results] & w3 & Hrj & H).
  unfold write_output, open_write in H. injection H as <-. cbn [snd fs].
  destruct (rank_and_justify_ok _ _ _ _ _ _ _ Hch Hrj) as [Hlen Hall].
  exists query_dict, database, ranking, results, w1, w2, w3.
  repeat split; try done.
  - apply lookup_insert_eq.
  - apply file_iter_output_text.
  - rewrite file_iter_output_text, length_map, <- Hlen.
    symmetry. by eapply Forall2_length.
  - intros other Hother Hne.
    apply choices_cases in Hch as [Ha|Ha], Hother as [Ho|Ho];
      try (rewrite Ha, Ho in Hne; done).
    + intros E. by apply (output_files_differ argv other).
    + by apply output_files_differ.
Qed.

(** C9.  On a query with a title and an abstract, [build_query] returns the
    text "Title: <title>", a line break, "Abstract: <abstract>"; it raises
    nothing, and its result depends on these two fields only. *)
Theorem build_query_formats (query_dict : gmap string string) (t a : string) :
  query_dict !! "title" = Some t -> query_dict !! "abstract" = Some a ->
  build_query query_dict = Ok ("Title: " +:+ t +:+ nl +:+ "Abstract: " +:+ a) /\
  forall other : gmap string string,
    other !! "title" = Some t -> other !! "abstract" = Some a ->
    build_query other = build_query query_dict.
Proof.
  intros Ht Ha. unfold build_query, dict_get. rewrite Ht, Ha. split; [done|].
  intros other Ht' Ha'. by rewrite Ht', Ha'.
Qed.

(** *** Further properties: the query text *)

(** X1.  [build_query] raises KeyError for the first of "title", "abstract"
    that the query lacks, and returns a text only when both are there. *)
Theorem build_query_key_errors (query_dict : gmap string string) :
  (query_dict !! "title" = None ->
   build_query query_dict = Raise (KeyError "title")) /\
  (is_Some (query_dict !! "title") -> query_dict !! "abstract" = None ->
   build_query query_dict = Raise (KeyError "abstract")) /\
  (forall text, build_query query_dict = Ok text ->
     is_Some (query_dict !! "title") /\ is_Some (query_dict !! "abstract")).
Proof.
  unfold build_query, dict_get. repeat split.
  - by intros ->.
  - intros [t ->] ->. done.
  - destruct (query_dict !! "title"); [by eexists | done].
  - destruct (query_dict !! "title"); [|done].
    destruct (query_dict !! "abstract"); [by eexists | done].
Qed.

Lemma first_line_inj (t1 t2 r1 r2 : string) :
  has_newline t1 = false -> has_newline t2 = false ->
  t1 +:+ nl +:+ r1 = t2 +:+ nl +:+ r2 -> t1 = t2 /\ r1 = r2.
Proof.
  revert t2. induction t1 as [|c t1 IH]; intros [|c' t2] H1 H2 E.
  - by injection E.
  - rewrite append_cons in E. injection E as <- _.
    cbn [has_newline] in H2. by rewrite bool_decide_eq_true_2 in H2.
  - rewrite append_cons in E. injection E as -> _.
    cbn [has_newline] in H1. by rewrite bool_decide_eq_true_2 in H1.
  - rewrite !append_cons in E. injection E as -> E.
    cbn [has_newline] in H1, H2.
    apply orb_false_iff in H1 as [_ H1]. apply orb_false_iff in H2 as [_ H2].
    destruct (IH t2 H1 H2 E) as [-> ->]. done.
Qed.

(** X2.  Two queries whose titles hold no line break and that give the same
    query text have the same title and the same abstract. *)
Theorem build_query_injective (d1 d2 : gmap string string) (t1 t2 text : string) :
  d1 !! "title" = Some t1 -> d2 !! "title" = Some t2 ->
  has_newline t1 = false -> has_newline t2 = false ->
  build_query d1 = Ok text -> build_query d2 = Ok text ->
  t1 = t2 /\ d1 !! "abstract" = d2 !! "abstract".
Proof.
  intros Ht1 Ht2 Hn1 Hn2. unfold build_query, dict_get. rewrite Ht1, Ht2.
  destruct (d1 !! "abstract") as [a1|]; [|done].
  destruct (d2 !! "abstract") as [a2|]; [|done].
  intros [= <-] [= E].
  change ("" +:+ t2 +:+ nl +:+ "Abstract: " +:+ a2)
    with (t2 +:+ nl +:+ "Abstract: " +:+ a2) in E.
  change ("" +:+ t1 +:+ nl +:+ "Abstract: " +:+ a1)
    with (t1 +:+ nl +:+ "Abstract: " +:+ a1) in E.
  apply first_line_inj in E as [-> E]; [|done..].
  rewrite !append_cons in E.
  change ("" +:+ a2) with a2 in E. change ("" +:+ a1) with a1 in E.
  by simplify_eq.
Qed.

(** *** Further properties: the raw database *)

Lemma mapM_ok {A B} (f : A -> result B) (l : list A) (ys : list B) :
  mapM f l = Ok ys <-> Forall2 (fun x y => f x = Ok y) l ys.
Proof.
  revert ys. induction l as [|x l IH]; intros ys; simpl.
  - split; [intros [= <-]; constructor | by inversion 1].
  - destruct (f x) as [y|e] eqn:Hx.
    + destruct (mapM f l) as [ys'|e] eqn:Hl.
      * split.
        -- intros [= <-]. constructor; [done | by apply IH].
        -- inversion 1 as [|? y' ? ys'' Hy Hrest]; subst.
           apply IH in Hrest. congruence.
      * split; [done|]. inversion 1 as [|? y' ? ys'' Hy Hrest]; subst.
        by apply IH in Hrest.
    + split; [done|]. inversion 1; congruence.
Qed.

Lemma mapM_raise {A B} (f : A -> result B) (l : list A) (e : exn) :
  mapM f l = Raise e <->
  exists pre x post,
    l = pre ++ x :: post /\
    Forall (fun z => exists y, f z = Ok y) pre /\ f x = Raise e.
Proof.
  induction l as [|x l IH]; simpl.
  - split; [done|]. intros (pre & z & post & E & _). by destruct pre.
  - destruct (f x) as [y|e'] eqn:Hx.
    + transitivity (mapM f l = Raise e).
      { destruct (mapM f l); split; congruence. }
      rewrite IH. split.
      * intros (pre & z & post & -> & Hpre & Hz).
        exists (x :: pre), z, post. repeat split; [|done].
        constructor; [by exists y | done].
      * intros ([|z pre] & z' & post & E & Hpre & Hz).
        -- injection E as <- _. congruence.
        -- injection E as <- ->. inversion Hpre; subst.
           by exists pre, z', post.
    + split.
      * intros [= <-]. exists [], x, l. repeat split; [constructor | done].
      * intros ([|z pre] & z' & post & E & Hpre & Hz).
        -- injection E as <- _. congruence.
        -- injection E as <- _. inversion Hpre as [|? ? [y Hy] _]; subst.
           congruence.
Qed.

Lemma concat_file_iter (s : string) :
  foldr String.append "" (file_iter s) = s.
Proof.
  induction s as [|c s IH]; [done|]. cbn [file_iter].
  case_bool_decide.
  - cbn [foldr]. by rewrite append_cons, IH.
  - destruct (file_iter s) as [|l ls].
    + cbn [foldr] in *. by rewrite <- IH.
    + cbn [foldr] in *. by rewrite append_cons, IH.
Qed.

Lemma universal_newlines_id (s : string) :
  has_cr s = false -> universal_newlines s = s.
Proof.
  induction s as [|c s IH]; [done|]. cbn [has_cr universal_newlines].
  intros H. apply orb_false_iff in H as [Hc Hs]. rewrite Hc. by rewrite IH.
Qed.

(** X3.  [read_jsonl] raises FileNotFoundError when the file is missing;
    otherwise it reads the file once and returns one record per line of the
    text as Python reads it (CR LF and lone CR turned into line feeds), in file
    order, or else raises what the first line that does not parse raises.
    The lines are the whole text: put end to end they give it back, which is
    the file content itself when the file holds no CR. *)
Theorem read_jsonl_outcomes (path : string) (w : world) :
  (fs w !! path = None ->
   read_jsonl path w = (Raise (FileNotFoundError path), w)) /\
  (forall content, fs w !! path = Some content ->
     let text := universal_newlines content in
     snd (read_jsonl path w) = log (EvRead path) w /\
     foldr String.append "" (file_iter text) = text /\
     (has_cr content = false -> text = content) /\
     (forall records,
        fst (read_jsonl path w) = Ok records <->
        Forall2 (fun line r => json_loads_raw line = Ok r)
                (file_iter text) records) /\
     (forall e,
        fst (read_jsonl path w) = Raise e <->
        exists before line after,
          file_iter text = before ++ line :: after /\
          Forall (fun l => exists r, json_loads_raw l = Ok r) before /\
          json_loads_raw line = Raise e)).
Proof.
  unfold read_jsonl, bind, open_read, lift. split.
  - by intros ->.
  - intros content Hc. cbv zeta. rewrite Hc. cbn [fst snd].
    split; [done|]. split; [apply concat_file_iter|].
    split; [apply universal_newlines_id|].
    split; intros; [apply mapM_ok | apply mapM_raise].
Qed.

Lemma read_jsonl_world (path : string) (w : world) :
  snd (read_jsonl path w) = w \/ snd (read_jsonl path w) = log (EvRead path) w.
Proof.
  unfold read_jsonl, bind, open_read, lift.
  destruct (fs w !! path); [right | left]; [|done].
  by destruct (mapM _ _).
Qed.

Lemma read_jsonl_ok (path : string) (w : world) (raw : list RawAuthor) :
  fst (read_jsonl path w) = Ok raw ->
  read_jsonl path w = (Ok raw, log (EvRead path) w).
Proof.
  unfold read_jsonl, bind, open_read, lift.
  destruct (fs w !! path); [|done]. cbn [fst]. by intros ->.
Qed.

Lemma load_author_profile_miss args w :
  fs w !! cache_file = None ->
  load_author_profile args w
  = match read_jsonl (data_path args) w with
    | (Raise e, w1) => (Raise e, w1)
    | (Ok raw, w1) =>
        match build_author_profile raw args with
        | Raise e => (Raise e, log (EvBuildProfile raw) w1)
        | Ok database =>
            (Ok database,
             {| fs := <[cache_file := json_dumps_profile database]> (fs w1);
                trace := trace w1 ++ [EvBuildProfile raw;
                                      EvWrite cache_file
                                        (json_dumps_profile database)] |})
        end
    end.
Proof.
  intros H. unfold load_author_profile, bind at 1, os_path_exists.
  rewrite bool_decide_eq_false_2 by (rewrite H; by intros [? ?]). cbn [negb].
  unfold bind at 1.
  destruct (read_jsonl (data_path args) w) as [[raw|e] w1]; [|done].
  unfold bind, emit, lift, open_write, ret.
  destruct (build_author_profile raw args) as [database|e]; [|done].
  cbn [log fs trace]. by rewrite <- app_assoc.
Qed.

(** X4.  With no cache file, a raw database that reads and a profile build
    that returns, the load returns the built profiles, writes them to the
    cache file and to no other file, and does so after one read of the raw
    database and one call of the builder.  A later load, whatever its
    arguments, reads only the cache; it returns the same profiles when
    [json.load] undoes [json.dump] on them. *)
Theorem cache_miss_builds_then_reuses
    (args args2 : Args) (w : world) (raw : list RawAuthor) (database : list Author) :
  fs w !! cache_file = None ->
  fst (read_jsonl (data_path args) w) = Ok raw ->
  build_author_profile raw args = Ok database ->
  json_loads_profile (json_dumps_profile database) = Ok database ->
  let w' := snd (load_author_profile args w) in
  fst (load_author_profile args w) = Ok database /\
  fs w' = <[cache_file := json_dumps_profile database]> (fs w) /\
  new_events (load_author_profile args) w
  = [EvRead (data_path args); EvBuildProfile raw;
     EvWrite cache_file (json_dumps_profile database)] /\
  fst (load_author_profile args2 w') = Ok database /\
  new_events (load_author_profile args2) w' = [EvRead cache_file].
Proof.
  intros Hmiss Hraw Hbuild Hjson w'.
  assert (Hrun : load_author_profile args w
                 = (Ok database,
                    {| fs := <[cache_file := json_dumps_profile database]> (fs w);
                       trace := trace w ++
                         [EvRead (data_path args); EvBuildProfile raw;
                          EvWrite cache_file (json_dumps_profile database)] |})).
  { rewrite load_author_profile_miss by done.
    rewrite (read_jsonl_ok _ _ _ Hraw), Hbuild.
    cbn [log fs trace]. by rewrite <- app_assoc. }
  assert (Hhit : fs w' !! cache_file = Some (json_dumps_profile database)).
  { unfold w'. rewrite Hrun. cbn [snd fs]. apply lookup_insert_eq. }
  unfold new_events. rewrite (load_author_profile_hit args2 w' _ Hhit).
  unfold w'. rewrite Hrun. cbn [fst snd fs trace log].
  rewrite !drop_app_length. by repeat split.
Qed.

(** X5.  Whatever happens, the profile load leaves every file other than the
    cache file as it was; when it raises (missing or malformed raw database,
    failing builder, unreadable cache) it has written nothing at all, so no
    cache file appears. *)
Theorem profile_load_writes_the_cache_only (args : Args) (w : world) :
  (forall path, path <> cache_file ->
     fs (snd (load_author_profile args w)) !! path = fs w !! path) /\
  (forall e, fst (load_author_profile args w) = Raise e ->
     fs (snd (load_author_profile args w)) = fs w).
Proof.
  destruct (fs w !! cache_file) as [c|] eqn:Hc.
  - rewrite (load_author_profile_hit args w c Hc). by split.
  - rewrite load_author_profile_miss by done.
    pose proof (read_jsonl_world (data_path args) w) as Hw.
    destruct (read_jsonl (data_path args) w) as [[raw|e] w1]; cbn [snd] in Hw.
    + destruct (build_author_profile raw args) as [database|e]; cbn [fst snd fs].
      * split; [|done]. intros path Hne. rewrite lookup_insert_ne by done.
        by destruct Hw as [->| ->].
      * by destruct Hw as [->| ->].
    + by destruct Hw as [->| ->].
Qed.

(** *** Further properties: the fitness engine *)

Lemma corpus_embedding_world keys args w :
  match keys with
  | Summaries _ => author_embedding args = "summarize"
  | PubLists _ => author_embedding args = "aggregate"
  end ->
  snd (corpus_embedding keys args w) = log (EvEncode (batch_texts keys)) w.
Proof.
  destruct keys as [l|l]; intros Hpol.
  - by rewrite summarize_run.
  - by rewrite aggregate_run, aggregate_embedding_run.
Qed.

(** X6.  When the list of authors is of the kind the policy expects,
    [compute_fitness] runs the embedding model exactly twice, whatever the
    number of authors and publications and whether or not it then raises:
    once on the query, once on a single batch (all summaries, or all
    publication texts in author order); it touches no file. *)
Theorem fitness_engine_calls_model_twice
    (query : string) (keys : author_keys) (args : Args) (w : world) :
  match keys with
  | Summaries _ => author_embedding args = "summarize"
  | PubLists _ => author_embedding args = "aggregate"
  end ->
  new_events (compute_fitness query keys args) w
  = [EvEncode [query]; EvEncode (batch_texts keys)] /\
  fs (snd (compute_fitness query keys args w)) = fs w.
Proof.
  intros Hpol. unfold new_events.
  rewrite compute_fitness_world, (corpus_embedding_world keys args _ Hpol).
  cbn [log trace fs]. by rewrite <- app_assoc, drop_app_length.
Qed.

(** X7.  Under "aggregate" an empty author pool makes [compute_fitness]
    raise RuntimeError ([torch.stack] of no tensor) instead of returning an
    empty ranking; in [main] an empty database therefore ends the run before
    any justification call. *)
Theorem empty_pool_aggregate_raises
    (query : string) (query_dict : gmap string string) (args : Args) (w : world) :
  author_embedding args = "aggregate" ->
  fst (compute_fitness query (PubLists []) args w) = Raise RuntimeError /\
  (build_query query_dict = Ok query ->
   fst (rank_and_justify args query_dict [] w) = Raise RuntimeError /\
   new_events (rank_and_justify args query_dict []) w
   = [EvEncode [query]; EvEncode []]).
Proof.
  intros Hpol.
  assert (Hcf : forall w0, compute_fitness query (PubLists []) args w0
                = (Raise RuntimeError,
                   log (EvEncode []) (log (EvEncode [query]) w0))).
  { intros w0.
    by rewrite compute_fitness_flat, aggregate_run, aggregate_embedding_run
      by (done || (unfold flat_corpus; by rewrite Hpol)). }
  split; [by rewrite Hcf|].
  intros Hq.
  assert (Hrj : rank_and_justify args query_dict [] w
                = (Raise RuntimeError,
                   log (EvEncode []) (log (EvEncode [query]) w))).
  { unfold rank_and_justify, bind, lift. rewrite Hq.
    unfold select_keys. rewrite Hpol.
    change (bool_decide ("aggregate" = "summarize")) with false.
    cbn [map]. by rewrite Hcf. }
  unfold new_events. rewrite Hrj. cbn [fst snd log trace].
  by rewrite <- app_assoc, drop_app_length.
Qed.

(** X8.  In [main], where the list handed to [compute_fitness] is chosen by
    the validated policy, a non-empty database (with at least one publication
    in all when the policy is "aggregate") always yields a ranking: no type
    error, no unknown-policy error, one entry per author and every author
    index exactly once, also when some scores are NaN. *)
Theorem main_ranking_covers_database
    (query : string) (database : list Author) (args : Args) (w : world) :
  author_embedding args ∈ choices -> database <> [] ->
  (author_embedding args = "aggregate" ->
   Exists (fun a => list_of_pubs a <> []) database) ->
  exists r,
    fst (compute_fitness query (select_keys args database) args w) = Ok r /\
    length r = length database /\
    Permutation (map corpus_id r) (seq 0 (length database)).
Proof.
  intros Hch Hne Hpubs.
  assert (Hperm : forall corpus,
             length corpus = length database ->
             Permutation (map corpus_id (sort_ranked (score_all (embed query) corpus)))
                         (seq 0 (length database))).
  { intros corpus Hlen. rewrite sort_ranked_perm.
    destruct (score_all_from (embed query) corpus 0) as (Hid & _).
    change (imap _ corpus) with (score_all (embed query) corpus) in Hid.
    by rewrite Hid, Hlen. }
  apply choices_cases in Hch as [Hp|Hp]; unfold select_keys; rewrite Hp.
  - change (bool_decide ("aggregate" = "summarize")) with false. cbn iota.
    eexists. split; [|split].
    + erewrite compute_fitness_ok; [reflexivity | | |].
      * apply not_flat_publications, concat_nonempty, List.Exists_map. auto.
      * rewrite aggregate_run, aggregate_embedding_run by done.
        destruct database; [done | reflexivity].
      * cbn [author_count]. by rewrite !length_map.
    + by rewrite length_sort_ranked, length_score_all, !length_map.
    + apply Hperm. by rewrite !length_map.
  - change (bool_decide ("summarize" = "summarize")) with true. cbn iota.
    eexists. split; [|split].
    + erewrite compute_fitness_ok;
        [reflexivity | by apply not_flat_if_summarize | by apply summarize_run |].
      cbn [author_count]. by rewrite !length_map.
    + by rewrite length_sort_ranked, length_score_all, !length_map.
    + apply Hperm. by rewrite !length_map.
Qed.

(** *** Further properties: the aggregate vector *)

Lemma Qc_of_nat_S (n : nat) : Qc_of_nat (S n) = (Qc_of_nat n + 1)%Qc.
Proof.
  apply Qc_is_canon. unfold Qc_of_nat. cbn [this Qcplus Q2Qc].
  rewrite !Qred_correct, Nat2Z.inj_succ. unfold Z.succ.
  rewrite inject_Z_plus. reflexivity.
Qed.

Lemma Qc_of_nat_pos (n : nat) : (0 < Qc_of_nat (S n))%Qc.
Proof.
  unfold Qc_of_nat, Qclt. cbn [this Q2Qc]. rewrite !Qred_correct.
  unfold Qlt. simpl. lia.
Qed.

Lemma Qc_of_nat_nonneg (n : nat) : (0 <= Qc_of_nat n)%Qc.
Proof.
  destruct n as [|n]; [by vm_compute|]. apply Qclt_le_weak, Qc_of_nat_pos.
Qed.

Lemma arith_mean_single (d : nat) (v : list Qc) :
  length v = d -> arith_mean d [v] = v.
Proof.
  intros Hlen. unfold arith_mean, column. apply list_eq. intros j.
  rewrite lookup_map. destruct (decide (j < d)) as [Hj|Hj].
  - destruct (lookup_lt_is_Some_2 v j) as [x Hx]; [lia|].
    rewrite lookup_seq_lt, Hx by done.
    cbn [fmap option_fmap option_map map qsum foldr length Nat.add].
    rewrite nth_lookup, Hx. cbn [default].
    replace (Qc_of_nat 1) with 1%Qc by (apply Qc_is_canon; reflexivity).
    apply f_equal. unfold id, Qcdiv. ring_simplify.
    replace (/ 1)%Qc with 1%Qc by (apply Qc_is_canon; reflexivity). ring.
  - rewrite lookup_seq_ge by lia. symmetry. apply lookup_ge_None. lia.
Qed.

(** X9.  Under "aggregate" an author with exactly one publication
    contributes that publication's embedding itself (a vector of norm 1). *)
Theorem single_publication_row
    (list_of_authors : list (list Publication)) (args : Args) (i : nat)
    (p : Publication) (w : world) :
  author_embedding args = "aggregate" ->
  list_of_authors !! i = Some [p] ->
  exists rows,
    fst (corpus_embedding (PubLists list_of_authors) args w) = Ok rows /\
    rows !! i = Some (embed (pub_text p)) /\
    sqnorm (encode (pub_text p)) = 1%Qc.
Proof.
  intros Hpol Hi.
  destruct (aggregate_row_is_mean list_of_authors args i [p] w Hpol Hi
              ltac:(discriminate))
    as (rows & Hrows & Hrow).
  exists rows. split; [done|]. split; [|apply encode_unit].
  cbn [map] in Hrow. rewrite arith_mean_single in Hrow by apply encode_dim.
  exact Hrow.
Qed.

Lemma qdot_qvadd (a b u : list Qc) :
  length a = length b ->
  qdot (qvadd a b) u = (qdot a u + qdot b u)%Qc.
Proof.
  revert b u. induction a as [|x a IH]; intros [|y b] [|z u] H;
    simpl in *; try done; try ring.
  rewrite IH by lia. ring.
Qed.

Lemma sqnorm_qvadd (a b : list Qc) :
  length a = length b ->
  sqnorm (qvadd a b) = (sqnorm a + 2 * qdot a b + sqnorm b)%Qc.
Proof.
  unfold sqnorm. revert b. induction a as [|x a IH]; intros [|y b] H;
    simpl in *; try done; try ring.
  rewrite IH by lia. ring.
Qed.

Lemma sum_step_bound (sa d sv M : Qc) :
  (0 <= M)%Qc -> (sa <= M * M)%Qc -> (d <= M)%Qc -> sv = 1%Qc ->
  (sa + 2 * d + sv <= (M + 1) * (M + 1))%Qc.
Proof.
  intros H0 H1 H2 ->. unfold Qcle in *.
  cbn [this Qcmult Qcplus Q2Qc] in *. rewrite ?Qred_correct in *. nra.
Qed.

(** A sum of [n] vectors of norm 1, added to a vector of norm at most [M],
    has norm at most [M + n]. *)
Lemma sum_of_units_bound (d : nat) (vs : list (list Qc)) (acc : list Qc) (M : Qc) :
  Forall (fun v => length v = d /\ sqnorm v = 1%Qc) vs ->
  length acc = d -> (0 <= M)%Qc -> (sqnorm acc <= M * M)%Qc ->
  (forall u, sqnorm u = 1%Qc -> (qdot acc u <= M)%Qc) ->
  (sqnorm (fold_left qvadd vs acc)
   <= (M + Qc_of_nat (length vs)) * (M + Qc_of_nat (length vs)))%Qc.
Proof.
  intros Hvs. revert acc M.
  induction Hvs as [|v vs [Hlen Hunit] _ IH]; intros acc M Hacc HM Hsq Hdot.
  - cbn [fold_left length].
    replace (Qc_of_nat 0) with 0%Qc by (apply Qc_is_canon; reflexivity).
    by rewrite Qcplus_0_r.
  - cbn [fold_left length]. rewrite Qc_of_nat_S.
    replace (M + (Qc_of_nat (length vs) + 1))%Qc
      with ((M + 1) + Qc_of_nat (length vs))%Qc by ring.
    apply IH.
    + rewrite length_qvadd; congruence.
    + replace 0%Qc with (0 + 0)%Qc by ring.
      apply Qcplus_le_compat; [done | by vm_compute].
    + rewrite sqnorm_qvadd by congruence.
      apply sum_step_bound; auto.
    + intros u Hu. rewrite qdot_qvadd by congruence.
      apply Qcplus_le_compat; [by apply Hdot|].
      by apply unit_dot_bounds.
Qed.

Lemma qdot_zeros (d : nat) (u : list Qc) : qdot (repeat 0%Qc d) u = 0%Qc.
Proof.
  revert u. induction d as [|d IH]; intros [|z u]; simpl; try done.
  rewrite IH. ring.
Qed.

Lemma sqnorm_scale (c : Qc) (v : list Qc) :
  sqnorm (map (fun x => x / c)%Qc v) = (/ c * / c * sqnorm v)%Qc.
Proof.
  unfold sqnorm. induction v as [|x v IH]; simpl; [ring|].
  rewrite IH. unfold Qcdiv. ring.
Qed.

Lemma arith_mean_as_sum (d : nat) (vs : list (list Qc)) :
  Forall (fun v => length v = d) vs ->
  arith_mean d vs
  = map (fun x => x / Qc_of_nat (length vs))%Qc
        (fold_left qvadd vs (repeat 0%Qc d)).
Proof.
  intros Hvs. unfold arith_mean. apply list_eq. intros j.
  rewrite !lookup_map.
  assert (Hlen : length (fold_left qvadd vs (repeat 0%Qc d)) = d)
    by (apply length_fold_qvadd; [done | apply repeat_length]).
  destruct (decide (j < d)) as [Hj|Hj].
  - rewrite lookup_seq_lt by done.
    destruct (lookup_lt_is_Some_2 (fold_left qvadd vs (repeat 0%Qc d)) j)
      as [x Hx]; [lia|].
    rewrite Hx. cbn [fmap option_fmap option_map Nat.add]. do 2 f_equal.
    pose proof (nth_fold_qvadd d vs (repeat 0%Qc d) j Hvs (repeat_length _ _)) as Hn.
    rewrite nth_lookup, Hx, nth_repeat, Qcplus_0_l in Hn. by cbn [default] in Hn.
  - rewrite lookup_seq_ge by lia.
    by rewrite (proj2 (lookup_ge_None _ _)) by lia.
Qed.

Lemma arith_mean_norm (d : nat) (vs : list (list Qc)) :
  vs <> [] -> Forall (fun v => length v = d /\ sqnorm v = 1%Qc) vs ->
  (sqnorm (arith_mean d vs) <= 1)%Qc.
Proof.
  intros Hne Hvs.
  rewrite arith_mean_as_sum by (eapply Forall_impl; [exact Hvs | by intros ? []]).
  rewrite sqnorm_scale.
  pose proof (sum_of_units_bound d vs (repeat 0%Qc d) 0 Hvs (repeat_length _ _)) as Hb.
  rewrite Qcplus_0_l in Hb.
  assert (Hsum : (sqnorm (fold_left qvadd vs (repeat 0%Qc d))
                  <= Qc_of_nat (length vs) * Qc_of_nat (length vs))%Qc).
  { apply Hb; [by vm_compute | | ].
    - unfold sqnorm. rewrite qdot_zeros. by vm_compute.
    - intros u _. rewrite qdot_zeros. by vm_compute. }
  destruct vs as [|v0 vs0]; [done|]. clear Hb.
  set (n := Qc_of_nat (length (v0 :: vs0))) in *.
  assert (Hn : (0 < n)%Qc) by apply Qc_of_nat_pos.
  assert (Hne' : n <> 0%Qc) by (intros E; rewrite E in Hn; by vm_compute in Hn).
  replace 1%Qc with (/ n * / n * (n * n))%Qc by (field; done).
  apply Qcmult_le_mono_nonneg_l; [|done].
  apply Qcmult_nonneg_nonneg; apply Qclt_le_weak, Qcinv_pos, Hn.
Qed.

(** X10.  Under "aggregate" the vector of an author with publications has
    Euclidean norm at most 1. *)
Theorem aggregate_row_norm_at_most_one
    (list_of_authors : list (list Publication)) (args : Args) (i : nat)
    (pubs : list Publication) (w : world) :
  author_embedding args = "aggregate" ->
  list_of_authors !! i = Some pubs -> pubs <> [] ->
  exists rows v,
    fst (corpus_embedding (PubLists list_of_authors) args w) = Ok rows /\
    rows !! i = Some (map Fin v) /\
    (sqnorm v <= 1)%Qc.
Proof.
  intros Hpol Hi Hne.
  destruct (aggregate_row_is_mean list_of_authors args i pubs w Hpol Hi Hne)
    as (rows & Hrows & Hrow).
  exists rows, (arith_mean dim (map (fun p => encode (pub_text p)) pubs)).
  split; [done|]. split; [done|].
  apply arith_mean_norm; [by destruct pubs|].
  apply List.Forall_map, List.Forall_forall. intros p _.
  split; [apply encode_dim | apply encode_unit].
Qed.

(** *** Further properties: the justification loop *)

(** X11.  The loop returns only when every ranked score is a number: each
    result then carries the score of its entry, and a ranking that holds a NaN
    score always ends in an exception, so a NaN fitness is never handed to the
    output. *)
Theorem nan_score_never_reaches_results
    (query_dict : gmap string string) (database : list Author) (args : Args)
    (ranking : list RankedEntry) (w : world) :
  (forall results,
      fst (justify_loop query_dict database args ranking [] w) = Ok results ->
      Forall2 (fun e item => fitness item = score e /\ is_fin (score e) = true)
              ranking results) /\
  (Exists (fun e => score e = NaN) ranking ->
   exists e, fst (justify_loop query_dict database args ranking [] w) = Raise e).
Proof.
  split; [apply justify_loop_finite | apply justify_loop_nan].
Qed.

(** Under "aggregate" ranking and justification raise as soon as some author
    of the database has no publication: in the search when no author has any,
    else at the latest when [round] meets the NaN score. *)
Lemma rank_and_justify_needs_publications
    (args : Args) (query_dict : gmap string string) (database : list Author)
    (w : world) :
  author_embedding args = "aggregate" ->
  Exists (fun a => list_of_pubs a = []) database ->
  exists e, fst (rank_and_justify args query_dict database w) = Raise e.
Proof.
  intros Hpol Hex. unfold rank_and_justify, bind at 1, lift.
  destruct (build_query query_dict) as [query|e]; [|by exists e].
  unfold select_keys. rewrite Hpol.
  change (bool_decide ("aggregate" = "summarize")) with false. cbn iota.
  set (rows := map (fun pubs => torch_mean dim (map embed (map pub_text pubs)))
                   (map list_of_pubs database)).
  set (w1 := log (EvEncode (map pub_text (concat (map list_of_pubs database))))
                 (log (EvEncode [query]) w)).
  assert (Hce : corpus_embedding (PubLists (map list_of_pubs database)) args
                  (log (EvEncode [query]) w) = (Ok rows, w1)).
  { rewrite aggregate_run, aggregate_embedding_run by done.
    destruct database; [by inversion Hex | reflexivity]. }
  assert (Hloop : forall ranking,
             Exists (fun e => score e = NaN) ranking ->
             exists e,
               fst (bind (justify_loop query_dict database args ranking [])
                         (fun results => ret (ranking, results)) w1) = Raise e).
  { intros ranking Hnan.
    destruct (justify_loop_nan query_dict database args ranking w1 Hnan) as [e He].
    exists e. unfold bind.
    destruct (justify_loop _ _ _ _ _ _) as [[results|e'] w']; simpl in *; congruence. }
  unfold bind at 1.
  destruct (flat_corpus (PubLists (map list_of_pubs database)) args) eqn:Hflat.
  - rewrite compute_fitness_flat, Hce by done.
    case_bool_decide; [|by eexists]. apply Hloop. by constructor.
  - rewrite (compute_fitness_ok _ _ _ _ rows w1) by
      (done || (cbn [author_count]; unfold rows; by rewrite !length_map)).
    apply Hloop.
    apply List.Exists_exists in Hex as (a & Hin & Ha).
    apply list_elem_of_In, list_elem_of_lookup in Hin as [i Hi].
    apply List.Exists_exists. exists {| corpus_id := i; score := NaN |}.
    split; [|done]. apply list_elem_of_In, elem_of_sorted_scores.
    exists (repeat NaN dim). split.
    + unfold rows. cbn [corpus_id]. rewrite map_map, lookup_map, Hi.
      cbn [fmap option_fmap option_map]. rewrite Ha. cbn [map].
      by rewrite torch_mean_empty.
    + cbn [score]. symmetry.
      apply dot_fin_nan; [apply encode_nonempty | apply encode_dim].
Qed.

(** *** Further properties: files and order of events in [main] *)

Lemma load_query_world args w :
  snd (load_query args w) = w \/
  snd (load_query args w) = log (EvRead (query_path args)) w.
Proof.
  unfold load_query, bind, open_read, lift.
  destruct (fs w !! query_path args); [right | by left].
  by destruct (json_loads_query _).
Qed.

Lemma corpus_embedding_fs keys args w :
  fs (snd (corpus_embedding keys args w)) = fs w.
Proof.
  unfold corpus_embedding. repeat case_bool_decide; [| |done].
  - destruct (as_pub_lists keys); [|done]. by rewrite aggregate_embedding_run.
  - by destruct (as_texts keys).
Qed.

Lemma compute_fitness_fs query keys args w :
  fs (snd (compute_fitness query keys args w)) = fs w.
Proof.
  by rewrite compute_fitness_world, corpus_embedding_fs.
Qed.

Lemma justify_loop_fs query_dict database args ranking results w :
  fs (snd (justify_loop query_dict database args ranking results w)) = fs w.
Proof.
  destruct (justify_loop_spec query_dict database args ranking results w)
    as (k & evs & _ & _ & Hsnd & _). by rewrite Hsnd.
Qed.

Lemma rank_and_justify_fs args query_dict database w :
  fs (snd (rank_and_justify args query_dict database w)) = fs w.
Proof.
  unfold rank_and_justify, bind at 1, lift.
  destruct (build_query query_dict) as [query|e]; [|done].
  unfold bind at 1.
  pose proof (compute_fitness_fs query (select_keys args database) args w) as Hc.
  destruct (compute_fitness query (select_keys args database) args w)
    as [[ranking|e] w1]; [|done].
  unfold bind at 1.
  pose proof (justify_loop_fs query_dict database args ranking [] w1) as Hj.
  destruct (justify_loop query_dict database args ranking [] w1)
    as [[results|e] w2]; cbn [snd ret] in *; congruence.
Qed.

Lemma load_author_profile_fs_cases args w :
  fs (snd (load_author_profile args w)) = fs w \/
  exists content,
    fs (snd (load_author_profile args w)) = <[cache_file := content]> (fs w).
Proof.
  destruct (fs w !! cache_file) as [c|] eqn:Hc.
  - rewrite (load_author_profile_hit args w c Hc). by left.
  - rewrite load_author_profile_miss by done.
    pose proof (read_jsonl_world (data_path args) w) as Hw.
    destruct (read_jsonl (data_path args) w) as [[raw|e] w1]; cbn [snd] in Hw.
    + destruct (build_author_profile raw args) as [database|e]; cbn [snd fs].
      * right. eexists. by destruct Hw as [->| ->].
      * left. by destruct Hw as [->| ->].
    + left. by destruct Hw as [->| ->].
Qed.

Lemma output_file_not_cache (args : Args) : output_file args <> cache_file.
Proof.
  destruct (output_file_suffix args) as [dir E]. rewrite E. intros H.
  rewrite <- !append_assoc in H.
  change cache_file with ("log/author_profile." +:+ "json") in H.
  by apply append_suffix_inj in H.
Qed.

Lemma main_valid argv w :
  author_embedding argv ∈ choices ->
  main argv w
  = match load_query argv w with
    | (Raise e, w1) => (Raise e, w1)
    | (Ok query_dict, w1) =>
        match load_author_profile argv w1 with
        | (Raise e, w2) => (Raise e, w2)
        | (Ok database, w2) =>
            match rank_and_justify argv query_dict database w2 with
            | (Raise e, w3) => (Raise e, w3)
            | (Ok rr, w3) => write_output argv (snd rr) w3
            end
        end
    end.
Proof.
  intros H. unfold main, bind at 1, get_args, ret.
  rewrite bool_decide_eq_true_2 by done. unfold bind at 1.
  destruct (load_query argv w) as [[query_dict|e] w1]; [|done].
  unfold bind at 1.
  destruct (load_author_profile argv w1) as [[database|e] w2]; [|done].
  unfold bind.
  by destruct (rank_and_justify argv query_dict database w2) as [[rr|e] w3].
Qed.

(** X12.  Under "aggregate", when the database that [main] has loaded holds an
    author without publication, [main] raises: the run ends inside ranking and
    justification (at the latest when [round] meets the NaN score), in the
    world that stage leaves, and the output file is as it was before the run,
    absent or old. *)
Theorem publication_less_author_stops_the_run
    (argv : Args) (query_dict : gmap string string) (database : list Author)
    (w w1 w2 : world) :
  author_embedding argv = "aggregate" ->
  load_query argv w = (Ok query_dict, w1) ->
  load_author_profile argv w1 = (Ok database, w2) ->
  Exists (fun a => list_of_pubs a = []) database ->
  exists e,
    rank_and_justify argv query_dict database w2
    = (Raise e, snd (rank_and_justify argv query_dict database w2)) /\
    main argv w = (Raise e, snd (rank_and_justify argv query_dict database w2)) /\
    fs (snd (main argv w)) !! output_file argv = fs w !! output_file argv.
Proof.
  intros Hpol Hq Hdb Hex.
  destruct (rank_and_justify_needs_publications argv query_dict database w2 Hpol Hex)
    as [e He].
  exists e.
  assert (Hch : author_embedding argv ∈ choices)
    by (rewrite Hpol; apply list_elem_of_here).
  pose proof (rank_and_justify_fs argv query_dict database w2) as Hr.
  pose proof (load_query_world argv w) as Hqw. rewrite Hq in Hqw. cbn [snd] in Hqw.
  pose proof (load_author_profile_fs_cases argv w1) as Hp.
  rewrite Hdb in Hp. cbn [snd] in Hp.
  rewrite main_valid, Hq, Hdb by done.
  destruct (rank_and_justify argv query_dict database w2) as [[rr|e'] w3];
    cbn [fst snd] in *; [discriminate He|].
  injection He as ->. split; [done|]. split; [done|].
  rewrite Hr.
  assert (Hw1 : fs w1 = fs w) by (by destruct Hqw as [->| ->]).
  destruct Hp as [E|[c E]]; rewrite E, <- Hw1; [done|].
  apply lookup_insert_ne. apply not_eq_sym, output_file_not_cache.
Qed.

(** X13.  Whatever a run of [main] does, it leaves every file other than the
    profile cache and its own output file as it found it; and a run that
    raises leaves the output file as it found it, absent or old. *)
Theorem main_file_effects (argv : Args) (w : world) :
  (forall path, path <> cache_file -> path <> output_file argv ->
     fs (snd (main argv w)) !! path = fs w !! path) /\
  (forall e, fst (main argv w) = Raise e ->
     fs (snd (main argv w)) !! output_file argv = fs w !! output_file argv).
Proof.
  destruct (decide (author_embedding argv ∈ choices)) as [Hch|Hch].
  2: { unfold main, bind, get_args. by rewrite bool_decide_eq_false_2. }
  rewrite main_valid by done.
  pose proof (load_query_world argv w) as Hq.
  destruct (load_query argv w) as [[query_dict|e] w1]; cbn [snd] in Hq.
  2: { by destruct Hq as [->| ->]. }
  assert (Hw1 : fs w1 = fs w) by (by destruct Hq as [->| ->]). clear Hq.
  pose proof (load_author_profile_fs_cases argv w1) as Hp.
  assert (Hcache : forall w2, (fs w2 = fs w1 \/
                               exists c, fs w2 = <[cache_file := c]> (fs w1)) ->
            (forall path, path <> cache_file -> fs w2 !! path = fs w !! path)).
  { intros w2 [E|[c E]] path Hne; rewrite E, <- Hw1; [done|].
    by rewrite lookup_insert_ne. }
  destruct (load_author_profile argv w1) as [[database|e] w2]; cbn [snd] in Hp.
  2: { cbn [fst snd]. split; intros; apply Hcache; auto.
       apply output_file_not_cache. }
  pose proof (rank_and_justify_fs argv query_dict database w2) as Hr.
  destruct (rank_and_justify argv query_dict database w2) as [[rr|e] w3];
    cbn [snd] in Hr.
  - unfold write_output, open_write. cbn [fst snd fs]. split; [|done].
    intros path Hc Ho. rewrite lookup_insert_ne by done.
    rewrite Hr. by apply Hcache.
  - cbn [fst snd]. rewrite Hr. split; intros; apply Hcache; auto.
    apply output_file_not_cache.
Qed.

Lemma select_keys_kind args database :
  author_embedding args ∈ choices ->
  match select_keys args database with
  | Summaries _ => author_embedding args = "summarize"
  | PubLists _ => author_embedding args = "aggregate"
  end.
Proof.
  intros H. apply choices_cases in H as [H|H]; unfold select_keys; by rewrite H.
Qed.

Lemma load_author_profile_ok_trace args w database w' :
  load_author_profile args w = (Ok database, w') ->
  trace w' = trace w ++ [EvRead cache_file] \/
  exists raw,
    trace w' = trace w ++ [EvRead (data_path args); EvBuildProfile raw;
                           EvWrite cache_file (json_dumps_profile database)].
Proof.
  destruct (fs w !! cache_file) as [c|] eqn:Hc.
  - rewrite (load_author_profile_hit args w c Hc). intros [= _ <-]. by left.
  - rewrite load_author_profile_miss by done.
    destruct (read_jsonl (data_path args) w) as [[raw|e] w1] eqn:Hr; [|done].
    pose proof (read_jsonl_ok (data_path args) w raw) as Hok.
    rewrite Hr in Hok. specialize (Hok eq_refl). injection Hok as ->.
    destruct (build_author_profile raw args) as [db|e]; [|done].
    intros [= <- <-]. right. exists raw. cbn [log trace]. by rewrite <- app_assoc.
Qed.

(** X14.  A run of [main] that completes has done, in this order and nothing
    else: one read of the query file, which gives the query; either one read
    of the cache file or one read of the raw database, one call of the profile
    builder and one write of the cache file, which gives the database; the
    model call on the query and the model call on the one batch of author
    texts, by which [compute_fitness] gives the ranking; one justification
    call per entry of that ranking, in rank order, each result being the one
    of its entry; and, last, the single write of the output file with these
    results. *)
Theorem main_event_order (argv : Args) (w w' : world) :
  main argv w = (Ok tt, w') ->
  exists query_dict database query ranking results profile_events calls w1 w2 w3,
    load_query argv w = (Ok query_dict, w1) /\
    load_author_profile argv w1 = (Ok database, w2) /\
    build_query query_dict = Ok query /\
    compute_fitness query (select_keys argv database) argv w2 = (Ok ranking, w3) /\
    fst (justify_loop query_dict database argv ranking [] w3) = Ok results /\
    Forall2 (justified query_dict database argv) ranking results /\
    trace w'
    = trace w ++ [EvRead (query_path argv)] ++ profile_events
      ++ [EvEncode [query]; EvEncode (batch_texts (select_keys argv database))]
      ++ calls
      ++ [EvWrite (output_file argv) (output_text results)] /\
    (profile_events = [EvRead cache_file] \/
     exists raw,
       profile_events = [EvRead (data_path argv); EvBuildProfile raw;
                         EvWrite cache_file (json_dumps_profile database)]) /\
    map Some calls = map (justification_call query_dict database) ranking /\
    length ranking = length database.
Proof.
  intros H. unfold main in H.
  apply bind_ok in H as (args & w0 & Hga & H).
  apply get_args_ok in Hga as (-> & -> & Hch).
  apply bind_ok in H as (query_dict & w1 & Hq & H).
  apply bind_ok in H as (database & w2 & Hdb & H).
  apply bind_ok in H as ([ranking results] & w5 & Hrj & H).
  unfold write_output, open_write in H. injection H as <-. cbn [snd trace].
  assert (Hw1 : trace w1 = trace w ++ [EvRead (query_path argv)]).
  { pose proof Hq as Hq'. unfold load_query in Hq'.
    apply bind_ok in Hq' as (c & wq & Hread & Hl).
    apply lift_ok in Hl as [_ ->]. unfold open_read in Hread.
    destruct (fs w !! query_path argv); [|done]. by injection Hread as _ <-. }
  unfold rank_and_justify in Hrj.
  apply bind_ok in Hrj as (query & w2' & Hbq & Hrj).
  apply lift_ok in Hbq as [Hbq ->].
  apply bind_ok in Hrj as (r & w3 & Hcf & Hrj).
  apply bind_ok in Hrj as (out & w4 & Hjl & Hrj).
  injection Hrj as -> -> ->.
  assert (Hlen : length ranking = length database).
  { destruct (compute_fitness_main_length _ _ _ _ _ _ Hch Hcf) as [[Hlen|Hnan] _];
      [done|].
    destruct (justify_loop_nan query_dict database argv ranking w3 Hnan) as [e He].
    rewrite Hjl in He. discriminate He. }
  assert (Hw3 : trace w3 = trace w2 ++
            [EvEncode [query]; EvEncode (batch_texts (select_keys argv database))]).
  { pose proof (compute_fitness_world query (select_keys argv database) argv w2)
      as Hcw.
    rewrite Hcf, (corpus_embedding_world _ _ _ (select_keys_kind _ _ Hch)) in Hcw.
    cbn [snd] in Hcw. rewrite Hcw. cbn [log trace]. by rewrite <- app_assoc. }
  destruct (justify_loop_spec query_dict database argv ranking [] w3)
    as (k & calls & _ & Hcalls & Hsnd & Hfst).
  rewrite Hjl in Hsnd, Hfst. cbn [fst snd] in Hsnd, Hfst.
  destruct Hfst as (-> & new & Hnew & Hall). rewrite firstn_all in Hcalls.
  cbn [app] in Hnew. subst new.
  apply load_author_profile_ok_trace in Hdb as Hprof.
  assert (exists profile_events,
             trace w2 = trace w1 ++ profile_events /\
             (profile_events = [EvRead cache_file] \/
              exists raw,
                profile_events = [EvRead (data_path argv); EvBuildProfile raw;
                                  EvWrite cache_file (json_dumps_profile database)]))
    as (profile_events & Hw2 & Hshape).
  { destruct Hprof as [E|[raw E]]; eexists; (split; [exact E|]);
      [by left | right; by exists raw]. }
  exists query_dict, database, query, ranking, results, profile_events, calls,
         w1, w2, w3.
  split; [done|]. split; [done|]. split; [done|]. split; [done|].
  split; [by rewrite Hjl|]. split; [done|].
  split; [|by repeat split].
  rewrite Hsnd. cbn [trace]. rewrite Hw3, Hw2, Hw1.
  by rewrite <- !app_assoc.
Qed.

(** *** Further properties: the score handed to the justification service *)

(** Rounding keeps a number between the integers that bound it. *)
Lemma round_half_even_between (x : Qc) (a b : Z) :
  (Q2Qc (inject_Z a) <= x)%Qc -> (x <= Q2Qc (inject_Z b))%Qc ->
  (a <= round_half_even x <= b)%Z.
Proof.
  unfold Qcle, round_half_even. cbn [this Q2Qc]. rewrite !Qred_correct.
  destruct x as [[n d] Hc]. cbn [this Qnum Qden]. unfold Qle. cbn [Qnum Qden inject_Z].
  intros Ha Hb.
  pose proof (Z.div_mod n (Z.pos d) ltac:(lia)) as Hdm.
  pose proof (Z.mod_pos_bound n (Z.pos d) ltac:(lia)) as Hm.
  set (f := (n / Z.pos d)%Z) in *. set (m := (n mod Z.pos d)%Z) in *.
  assert (Hfa : (a <= f)%Z) by nia.
  assert (Hfb : (f <= b)%Z) by nia.
  assert (Hfb' : (0 < m -> f + 1 <= b)%Z) by nia.
  destruct (Z.ltb_spec (2 * m) (Z.pos d)); [lia|].
  destruct (Z.ltb_spec (Z.pos d) (2 * m)); [lia|].
  destruct (Z.even f); lia.
Qed.

(** X15.  Under "summarize", [round(score * 100)] is defined for every
    ranked entry and is an integer between -100 and 100: the justification
    service is never handed a percentage outside this range. *)
Theorem summarize_percent_in_range
    (query : string) (summaries : list string) (args : Args) (w : world) :
  author_embedding args = "summarize" ->
  exists r,
    fst (compute_fitness query (Summaries summaries) args w) = Ok r /\
    forall e, e ∈ r ->
      exists percent,
        py_round (fmul (score e) (Fin (Qc_of_nat 100))) = Ok percent /\
        (-100 <= percent <= 100)%Z.
Proof.
  intros Hpol. eexists. split.
  - erewrite compute_fitness_ok;
      [reflexivity | by apply not_flat_if_summarize | by apply summarize_run
       | apply length_map].
  - intros e He. apply elem_of_sorted_scores in He as (row & Hrow & Hs).
    rewrite lookup_map in Hrow.
    destruct (summaries !! corpus_id e) as [s|]; [|done].
    injection Hrow as <-. rewrite embed_dot_fin in Hs. rewrite Hs.
    cbn [fmul py_round]. eexists. split; [reflexivity|].
    pose proof (unit_dot_bounds _ _ (encode_unit query) (encode_unit s)) as [Hlo Hhi].
    apply round_half_even_between.
    + revert Hlo. unfold Qcle, Qc_of_nat. cbn [this Qcmult Qcopp Q2Qc].
      rewrite !Qred_correct. generalize (this (qdot (encode query) (encode s))).
      intros t Ht. change (inject_Z (Z.of_nat 100)) with (100 # 1)%Q.
      change (inject_Z (-100)) with (-100 # 1)%Q. lra.
    + revert Hhi. unfold Qcle, Qc_of_nat. cbn [this Qcmult Qcopp Q2Qc].
      rewrite !Qred_correct. generalize (this (qdot (encode query) (encode s))).
      intros t Ht. change (inject_Z (Z.of_nat 100)) with (100 # 1)%Q.
      change (inject_Z 100) with (100 # 1)%Q. lra.
Qed.

(** *** Further properties: slice bounds, tensor shapes, output paths *)

Lemma bounds_from_lookup {A} (groups : list (list A)) (acc i : nat) (g : list A) :
  groups !! i = Some g ->
  bounds_from acc (map length groups) !! i
  = Some (acc + length (concat (take i groups)),
          acc + length (concat (take i groups)) + length g).
Proof.
  revert acc i. induction groups as [|g0 groups IH]; intros acc i Hi; [done|].
  destruct i as [|i]; cbn [map bounds_from].
  - injection Hi as ->. cbn. by rewrite Nat.add_0_r.
  - cbn [lookup list_lookup] in Hi |- *. rewrite (IH _ _ Hi).
    cbn [take concat firstn]. rewrite length_app. do 2 f_equal; lia.
Qed.

(** X16.  The slice of author [i] starts at the number of publications of
    the authors before it and ends that number plus its own count further;
    for the empty pool [low] is [[0]] and [high] is empty, so no slice is
    taken. *)
Theorem slice_bounds_are_prefix_counts
    (list_of_authors : list (list Publication)) :
  (forall i pubs, list_of_authors !! i = Some pubs ->
     let before := length (concat (take i list_of_authors)) in
     fst (slice_bounds list_of_authors) !! i = Some before /\
     snd (slice_bounds list_of_authors) !! i = Some (before + length pubs)) /\
  length (snd (slice_bounds list_of_authors)) = length list_of_authors /\
  (list_of_authors = [] ->
   slice_bounds list_of_authors = ([0], []) /\
   zip (fst (slice_bounds list_of_authors)) (snd (slice_bounds list_of_authors))
   = []).
Proof.
  split; [|split].
  - intros i pubs Hi before.
    pose proof (bounds_from_lookup list_of_authors 0 i pubs Hi) as Hb.
    rewrite <- slice_bounds_zip in Hb.
    by apply lookup_zip_with_Some in Hb as (l & h & [= <- <-] & Hl & Hh).
  - unfold slice_bounds, np_cumsum. cbn [snd].
    by rewrite length_cumsum_from, length_map.
  - by intros ->.
Qed.

Lemma length_vadd (a b : vec) :
  length a = length b -> length (vadd a b) = length a.
Proof.
  revert b. induction a as [|x a IH]; intros [|y b] H; simpl in *; try done.
  f_equal. apply IH. lia.
Qed.

Lemma length_torch_mean (d : nat) (rows : list vec) :
  Forall (fun row => length row = d) rows -> length (torch_mean d rows) = d.
Proof.
  intros H. unfold torch_mean. rewrite length_map.
  assert (Hacc : length (repeat (Fin 0%Qc) d) = d) by apply repeat_length.
  revert Hacc. generalize (repeat (Fin 0%Qc) d).
  induction H as [|row rows Hrow _ IH]; intros acc Hacc; [done|].
  cbn [fold_left]. apply IH. rewrite length_vadd; congruence.
Qed.

(** X17.  Under both policies the tensor handed to the similarity search
    has one row per author and [dim] columns, also for the NaN row of an
    author without publications (the batch holding at least one
    publication). *)
Theorem corpus_embedding_shape (keys : author_keys) (args : Args) (w : world) :
  match keys with
  | Summaries _ => author_embedding args = "summarize"
  | PubLists l => author_embedding args = "aggregate" /\ concat l <> []
  end ->
  exists rows,
    fst (corpus_embedding keys args w) = Ok rows /\
    length rows = author_count keys /\
    Forall (fun row => length row = dim) rows.
Proof.
  destruct keys as [l|l].
  - intros Hpol. rewrite summarize_run by done. eexists. split; [done|].
    split; [apply length_map|].
    apply List.Forall_map, List.Forall_forall. intros s _.
    unfold embed. by rewrite length_map.
  - intros [Hpol Hne]. rewrite aggregate_run, aggregate_embedding_run by done.
    destruct l as [|pubs l]; [done|]. eexists. split; [done|].
    split; [apply length_map|].
    apply List.Forall_map, List.Forall_forall. intros ps _.
    apply length_torch_mean.
    apply List.Forall_map, List.Forall_map, List.Forall_forall. intros p _.
    unfold embed. by rewrite length_map.
Qed.

Lemma append_prefix_inj (x s t : string) : x +:+ s = x +:+ t -> s = t.
Proof.
  induction x as [|c x IH]; [done|]. rewrite !append_cons.
  intros [= H]. by apply IH.
Qed.

Lemma append_same_suffix_inj (s t x : string) : s +:+ x = t +:+ x -> s = t.
Proof.
  revert t. induction s as [|c s IH]; intros [|c' t] H.
  - done.
  - apply (f_equal String.length) in H. rewrite !length_append in H.
    cbn [String.length] in H. lia.
  - apply (f_equal String.length) in H. rewrite !length_append in H.
    cbn [String.length] in H. lia.
  - rewrite !append_cons in H. injection H as -> H. by rewrite (IH t H).
Qed.

(** X18.  For one output directory the output path determines the policy:
    two policies, recognised or not, never share an output file. *)
Theorem output_file_determines_policy (a1 a2 : Args) :
  output_path a1 = output_path a2 ->
  output_file a1 = output_file a2 ->
  author_embedding a1 = author_embedding a2.
Proof.
  unfold output_file, os_path_join. intros <-.
  change (starts_with_slash ("output_" +:+ author_embedding a1 +:+ ".txt"))
    with false.
  change (starts_with_slash ("output_" +:+ author_embedding a2 +:+ ".txt"))
    with false. cbn iota.
  assert (Hname : "output_" +:+ author_embedding a1 +:+ ".txt"
                  = "output_" +:+ author_embedding a2 +:+ ".txt" ->
                  author_embedding a1 = author_embedding a2).
  { intros E. apply append_prefix_inj in E. by apply append_same_suffix_inj in E. }
  destruct (_ || _); intros E; apply Hname.
  - by apply append_prefix_inj in E.
  - apply append_prefix_inj in E. by apply (append_prefix_inj "/") in E.
Qed.

End Pipeline.

(** ** The sample embedding model *)

Lemma toy_encode_dim (s : string) : length (toy_encode s) = 2.
Proof. unfold toy_encode. by destruct (String.length s mod 3) as [|[|?]]. Qed.

Lemma toy_encode_unit (s : string) : sqnorm (toy_encode s) = 1%Qc.
Proof.
  unfold toy_encode.
  destruct (String.length s mod 3) as [|[|?]]; apply Qc_is_canon; reflexivity.
Qed.

Lemma average_not_a_choice : author_embedding (sample_args "average") ∉ choices.
Proof. intros H. apply choices_cases in H as [H|H]; discriminate H. Qed.

(** ** C2 *)

(** C2.  Under "aggregate" the vector of an author with publications
    P1..Pn, n >= 1, is the arithmetic mean of the n publication embeddings,
    each of norm 1, and nothing normalises it afterwards: for the author of
    [pub0] and [pub1] under the sample model it has squared norm 1/2. *)
Theorem aggregate_vector_is_plain_mean :
  (forall (dim : nat) (encode : string -> list Qc),
      (forall s, length (encode s) = dim) ->
      (forall s, sqnorm (encode s) = 1%Qc) ->
      forall (list_of_authors : list (list Publication)) (args : Args) (i : nat)
             (pubs : list Publication) (w : world),
        author_embedding args = "aggregate" ->
        list_of_authors !! i = Some pubs -> pubs <> [] ->
        Forall (fun p => sqnorm (encode (pub_text p)) = 1%Qc) pubs /\
        exists rows,
          fst (corpus_embedding dim encode (PubLists list_of_authors) args w)
          = Ok rows /\
          rows !! i
          = Some (map Fin (arith_mean dim
                             (map (fun p => encode (pub_text p)) pubs)))) /\
  (exists rows v,
      fst (corpus_embedding 2 toy_encode (PubLists [[pub0; pub1]])
             (sample_args "aggregate") empty_world) = Ok rows /\
      rows !! 0 = Some (map Fin v) /\
      sqnorm v = Q2Qc (1 # 2) /\ sqnorm v <> 1%Qc).
Proof.
  split.
  - intros dim encode Hdim Hunit authors args i pubs w Hpol Hi Hne. split.
    + apply List.Forall_forall. intros p _. apply Hunit.
    + by apply aggregate_row_is_mean.
  - destruct (aggregate_row_is_mean 2 toy_encode toy_encode_dim
                [[pub0; pub1]] (sample_args "aggregate") 0 [pub0; pub1]
                empty_world eq_refl eq_refl ltac:(done)) as (rows & Hrows & Hrow).
    exists rows, (arith_mean 2 (map (fun p => toy_encode (pub_text p)) [pub0; pub1])).
    split; [done|]. split; [done|]. split.
    + apply Qc_is_canon. reflexivity.
    + intros H. apply (f_equal this) in H. by vm_compute in H.
Qed.

(** ** The statements on the samples *)

Lemma aggregate_vector_is_plain_mean_witness :
  exists rows,
    fst (corpus_embedding 2 toy_encode (PubLists [[pub0; pub1]; [pub1]])
           (sample_args "aggregate") empty_world) = Ok rows /\
    rows !! 1
    = Some (map Fin (arith_mean 2 (map (fun p => toy_encode (pub_text p)) [pub1]))).
Proof.
  apply (proj1 aggregate_vector_is_plain_mean 2 toy_encode
           toy_encode_dim toy_encode_unit [[pub0; pub1]; [pub1]]
           (sample_args "aggregate") 1 [pub1] empty_world);
    [reflexivity | reflexivity | discriminate].
Defined.

Lemma compute_fitness_total_ranking_witness :
  exists r,
    fst (compute_fitness 2 toy_encode "q" (PubLists [[pub0; pub1]; [pub1]])
           (sample_args "aggregate") empty_world) = Ok r /\
    total_ranking 2 r.
Proof.
  apply (compute_fitness_total_ranking 2 toy_encode toy_encode_dim "q"
           (PubLists [[pub0; pub1]; [pub1]]) (sample_args "aggregate") empty_world).
  - simpl. lia.
  - split; [reflexivity|]. repeat constructor; discriminate.
Defined.

(** C1, as stated, fails: under "aggregate" an author without publications
    gets a NaN score, and no order of the entries is non-increasing. *)
Lemma ranking_breaks_without_publications :
  0 < author_count (PubLists [[pub0]; []]) /\
  ~ exists r,
      fst (compute_fitness 2 toy_encode "q" (PubLists [[pub0]; []])
             (sample_args "aggregate") empty_world) = Ok r /\
      total_ranking 2 r.
Proof.
  split; [simpl; lia|]. intros (r & Hr & _ & Hs).
  vm_compute in Hr. injection Hr as <-.
  destruct (Hs 0 1 _ _ ltac:(lia) eq_refl eq_refl) as [H _]. discriminate H.
Qed.


Lemma summarize_scores_are_cosines_witness :
  exists r,
    fst (compute_fitness 2 toy_encode "q" (Summaries ["sa"; "s"])
           (sample_args "summarize") empty_world) = Ok r /\
    Permutation (map corpus_id r) (seq 0 2) /\
    forall e, e ∈ r ->
      exists s,
        ["sa"; "s"] !! corpus_id e = Some s /\
        sqnorm (toy_encode "q") = 1%Qc /\ sqnorm (toy_encode s) = 1%Qc /\
        score e = Fin (qdot (toy_encode "q") (toy_encode s)) /\
        (- (1) <= qdot (toy_encode "q") (toy_encode s))%Qc /\
        (qdot (toy_encode "q") (toy_encode s) <= 1)%Qc.
Proof.
  apply (summarize_scores_are_cosines 2 toy_encode toy_encode_unit "q"
           ["sa"; "s"] (sample_args "summarize") empty_world).
  reflexivity.
Defined.

Lemma cache_hit_ignores_database_witness :
  fst (load_author_profile sample_loads_profile sample_loads_raw
         sample_dumps_profile sample_build_profile
         (sample_args "summarize") sample_world)
  = Ok sample_database /\
  fst (load_author_profile sample_loads_profile sample_loads_raw
         sample_dumps_profile sample_build_profile
         (sample_args "aggregate") other_world)
  = fst (load_author_profile sample_loads_profile sample_loads_raw
           sample_dumps_profile sample_build_profile
           (sample_args "summarize") sample_world) /\
  new_events (load_author_profile sample_loads_profile sample_loads_raw
                sample_dumps_profile sample_build_profile
                (sample_args "summarize")) sample_world
  = [EvRead cache_file] /\
  fs (snd (load_author_profile sample_loads_profile sample_loads_raw
             sample_dumps_profile sample_build_profile
             (sample_args "summarize") sample_world))
  = fs sample_world.
Proof.
  destruct (cache_hit_ignores_database sample_loads_query sample_loads_profile
              sample_loads_raw sample_dumps_profile sample_build_profile
              (sample_args "summarize") (sample_args "aggregate")
              sample_world other_world "cache" eq_refl eq_refl)
    as (H1 & H2 & H3 & H4 & _).
  repeat split; assumption.
Defined.

Lemma unknown_policy_is_fatal_witness :
  compute_fitness 2 toy_encode "q" (PubLists [[pub0]]) (sample_args "average")
    sample_world
  = (Raise NotImplementedError, log (EvEncode ["q"]) sample_world) /\
  main 2 toy_encode sample_loads_query sample_loads_profile sample_loads_raw
    sample_dumps_profile sample_dumps sample_build_profile sample_justification
    (sample_args "average") sample_world
  = (Raise (SystemExit 2), sample_world).
Proof.
  apply (unknown_policy_is_fatal 2 toy_encode sample_loads_query
           sample_loads_profile sample_loads_raw sample_dumps_profile
           sample_dumps sample_build_profile sample_justification
           "q" (PubLists [[pub0]]) (sample_args "average") sample_world).
  exact average_not_a_choice.
Defined.

(** C6, as stated, fails: with an unknown policy [compute_fitness] has
    already run the embedding model on the query when it raises. *)
Lemma unknown_policy_embeds_the_query_first :
  (author_embedding (sample_args "average") ∉ choices) /\
  fst (compute_fitness 2 toy_encode "q" (PubLists [[pub0]])
         (sample_args "average") empty_world) = Raise NotImplementedError /\
  new_events (compute_fitness 2 toy_encode "q" (PubLists [[pub0]])
                (sample_args "average")) empty_world
  = [EvEncode ["q"]] /\
  new_events (compute_fitness 2 toy_encode "q" (PubLists [[pub0]])
                (sample_args "average")) empty_world
  <> [].
Proof.
  split; [exact average_not_a_choice|].
  split; [reflexivity|]. split; [reflexivity | discriminate].
Qed.

Lemma output_file_lists_results_in_rank_order_witness :
  exists results,
    fs (snd (main 2 toy_encode sample_loads_query sample_loads_profile
               sample_loads_raw sample_dumps_profile sample_dumps
               sample_build_profile sample_justification
               (sample_args "summarize") sample_world))
      !! "./log/output_summarize.txt"
    = Some (output_text sample_dumps results) /\
    length (file_iter (output_text sample_dumps results)) = 2.
Proof.
  destruct (output_file_lists_results_in_rank_order 2 toy_encode
              sample_loads_query sample_loads_profile sample_loads_raw
              sample_dumps_profile sample_dumps (fun _ => eq_refl)
              sample_build_profile sample_justification
              (sample_args "summarize") sample_world
              (snd (main 2 toy_encode sample_loads_query sample_loads_profile
                      sample_loads_raw sample_dumps_profile sample_dumps
                      sample_build_profile sample_justification
                      (sample_args "summarize") sample_world)))
    as (qd & db & ranking & results & w1 & w2 & w3 & Hq & Hdb & _ & _ & _
        & Hfile & _ & Hlen & _).
  - vm_compute. reflexivity.
  - exists results. split; [exact Hfile|].
    rewrite Hlen. vm_compute in Hq. injection Hq as _ <-.
    vm_compute in Hdb. by injection Hdb as <- _.
Defined.

Lemma justification_calls_follow_ranking_witness :
  exists results,
    fst (justify_loop sample_justification sample_query sample_database
           (sample_args "summarize") sample_ranking [] empty_world)
    = Ok results.
Proof.
  apply (proj2 (proj2 (justification_calls_follow_ranking sample_justification
           sample_query sample_database (sample_args "summarize")
           sample_ranking empty_world))).
  repeat constructor.
  - exists {| res_name := "B"; fitness := Fin (Q2Qc (4 # 5)); explanation := "fits" |}.
    eexists _, _. repeat split; reflexivity.
  - exists {| res_name := "A"; fitness := Fin (Q2Qc (1 # 2)); explanation := "fits" |}.
    eexists _, _. repeat split; reflexivity.
Defined.

(** C8, as stated, fails: when the first call raises, the second entry of
    the ranking is never submitted. *)
Lemma failed_call_ends_the_loop :
  exists ranking,
    fst (compute_fitness 2 toy_encode "q" (Summaries ["sa"; "s"])
           (sample_args "summarize") empty_world) = Ok ranking /\
    length ranking = 2 /\
    length (new_events
              (justify_loop failing_justification sample_query sample_database
                 (sample_args "summarize") ranking []) empty_world) = 1 /\
    map Some (new_events
                (justify_loop failing_justification sample_query sample_database
                   (sample_args "summarize") ranking []) empty_world)
    <> map (justification_call sample_query sample_database) ranking.
Proof.
  eexists. split; [vm_compute; reflexivity|].
  split; [reflexivity|]. split; [reflexivity|].
  intros H. apply (f_equal length) in H. discriminate H.
Qed.

Lemma build_query_formats_witness :
  build_query sample_query = Ok ("Title: Q" +:+ nl +:+ "Abstract: Z").
Proof.
  exact (proj1 (build_query_formats sample_query "Q" "Z" eq_refl eq_refl)).
Defined.

Lemma empty_publication_list_gives_nan_witness :
  exists rows r,
    fst (corpus_embedding 2 toy_encode (PubLists [[pub0]; []])
           (sample_args "aggregate") empty_world) = Ok rows /\
    fst (compute_fitness 2 toy_encode "q" (PubLists [[pub0]; []])
           (sample_args "aggregate") empty_world) = Ok r /\
    rows !! 1 = Some [NaN; NaN] /\
    ~ finite_scores r.
Proof.
  destruct (empty_publication_list_gives_nan 2 toy_encode toy_encode_dim
              toy_encode_unit "q" [[pub0]; []] (sample_args "aggregate")
              empty_world eq_refl ltac:(discriminate))
    as (rows & r & Hrows & Hr & Hnan & Hfin).
  exists rows, r. split; [exact Hrows|]. split; [exact Hr|]. split.
  - exact (proj1 (proj2 (Hnan 1 eq_refl))).
  - intros H. apply Hfin in H.
    inversion H as [|? ? _ H2]. inversion H2 as [|? ? H3 _]. by apply H3.
Defined.

(** C10 as first worded: with no publication in the whole pool the author
    without publications is there, but [compute_fitness] raises and there is
    no ranking, so no NaN score either. *)
Lemma pool_without_publications_raises :
  author_embedding (sample_args "aggregate") = "aggregate" /\
  ([[]] : list (list Publication)) <> [] /\
  ([[]] : list (list Publication)) !! 0 = Some [] /\
  fst (compute_fitness 2 toy_encode "q" (PubLists [[]])
         (sample_args "aggregate") empty_world) = Raise RuntimeError /\
  ~ (exists r,
       fst (compute_fitness 2 toy_encode "q" (PubLists [[]])
              (sample_args "aggregate") empty_world) = Ok r).
Proof.
  split; [reflexivity|]. split; [discriminate|]. split; [reflexivity|].
  split; [reflexivity|]. intros [r Hr]. vm_compute in Hr. discriminate Hr.
Defined.

(** ** The further properties on the samples *)

Lemma build_query_key_errors_witness :
  build_query ∅ = Raise (KeyError "title") /\
  build_query {[ "title" := "Q" ]} = Raise (KeyError "abstract").
Proof.
  split.
  - apply (proj1 (build_query_key_errors ∅)). reflexivity.
  - apply (proj1 (proj2 (build_query_key_errors {[ "title" := "Q" ]}))).
    + by exists "Q".
    + reflexivity.
Defined.

Lemma build_query_injective_witness :
  "Q" = "Q" /\
  sample_query !! "abstract" = (<["venue" := "V"]> sample_query) !! "abstract".
Proof.
  apply (build_query_injective sample_query (<["venue" := "V"]> sample_query)
           "Q" "Q" ("Title: Q" +:+ nl +:+ "Abstract: Z")); reflexivity.
Defined.

Lemma read_jsonl_outcomes_witness :
  read_jsonl sample_loads_raw "data/test_database.jsonl" empty_world
  = (Raise (FileNotFoundError "data/test_database.jsonl"), empty_world) /\
  fst (read_jsonl sample_loads_raw "data/test_database.jsonl" fresh_world)
  = Ok [ {| raw_name := "A" +:+ nl; publication_urls := [] |};
         {| raw_name := "B" +:+ nl; publication_urls := [] |} ] /\
  fst (read_jsonl sample_loads_raw "data/test_database.jsonl" crlf_world)
  = Ok [ {| raw_name := "A" +:+ nl; publication_urls := [] |};
         {| raw_name := "B" +:+ nl; publication_urls := [] |} ].
Proof.
  split; [|split].
  - apply (proj1 (read_jsonl_outcomes sample_loads_raw
                    "data/test_database.jsonl" empty_world)). reflexivity.
  - apply (proj1 (proj2 (proj2 (proj2 (proj2 (read_jsonl_outcomes sample_loads_raw
              "data/test_database.jsonl" fresh_world)
              ("A" +:+ nl +:+ "B" +:+ nl) eq_refl))))).
    repeat constructor.
  - apply (proj1 (proj2 (proj2 (proj2 (proj2 (read_jsonl_outcomes sample_loads_raw
              "data/test_database.jsonl" crlf_world)
              (String "A" (String CR nl) +:+ String "B" (String CR nl)) eq_refl))))).
    repeat constructor.
Defined.

Lemma cache_miss_builds_then_reuses_witness :
  fst (load_author_profile sample_loads_profile sample_loads_raw
         sample_dumps_profile sample_build_profile
         (sample_args "summarize") fresh_world) = Ok sample_database /\
  fst (load_author_profile sample_loads_profile sample_loads_raw
         sample_dumps_profile sample_build_profile
         (sample_args "aggregate")
         (snd (load_author_profile sample_loads_profile sample_loads_raw
                 sample_dumps_profile sample_build_profile
                 (sample_args "summarize") fresh_world))) = Ok sample_database.
Proof.
  destruct (cache_miss_builds_then_reuses sample_loads_profile sample_loads_raw
              sample_dumps_profile sample_build_profile
              (sample_args "summarize") (sample_args "aggregate") fresh_world
              [ {| raw_name := "A" +:+ nl; publication_urls := [] |};
                {| raw_name := "B" +:+ nl; publication_urls := [] |} ]
              sample_database eq_refl eq_refl eq_refl eq_refl)
    as (H1 & _ & _ & H2 & _).
  by split.
Defined.

Lemma profile_load_writes_the_cache_only_witness :
  fs (snd (load_author_profile sample_loads_profile sample_loads_raw
             sample_dumps_profile sample_build_profile
             (sample_args "summarize") empty_world)) = fs empty_world.
Proof.
  apply (proj2 (profile_load_writes_the_cache_only sample_loads_profile
                  sample_loads_raw sample_dumps_profile sample_build_profile
                  (sample_args "summarize") empty_world)
           (FileNotFoundError "data/test_database.jsonl")).
  reflexivity.
Defined.

Lemma fitness_engine_calls_model_twice_witness :
  new_events (compute_fitness 2 toy_encode "q" (PubLists [[pub0; pub1]; [pub1]])
                (sample_args "aggregate")) empty_world
  = [EvEncode ["q"]; EvEncode [pub_text pub0; pub_text pub1; pub_text pub1]] /\
  fs (snd (compute_fitness 2 toy_encode "q" (PubLists [[pub0; pub1]; [pub1]])
             (sample_args "aggregate") empty_world)) = fs empty_world.
Proof.
  apply (fitness_engine_calls_model_twice 2 toy_encode "q"
           (PubLists [[pub0; pub1]; [pub1]]) (sample_args "aggregate") empty_world).
  reflexivity.
Defined.

Lemma empty_pool_aggregate_raises_witness :
  fst (compute_fitness 2 toy_encode "q" (PubLists []) (sample_args "aggregate")
         empty_world) = Raise RuntimeError.
Proof.
  apply (proj1 (empty_pool_aggregate_raises 2 toy_encode sample_justification
                  "q" sample_query (sample_args "aggregate") empty_world eq_refl)).
Defined.

Lemma main_ranking_covers_database_witness :
  exists r,
    fst (compute_fitness 2 toy_encode "q"
           (select_keys (sample_args "aggregate") orphan_database)
           (sample_args "aggregate") empty_world) = Ok r /\
    length r = 2 /\
    Permutation (map corpus_id r) (seq 0 2).
Proof.
  apply (main_ranking_covers_database 2 toy_encode "q" orphan_database
           (sample_args "aggregate") empty_world).
  - apply list_elem_of_here.
  - discriminate.
  - intros _. constructor. discriminate.
Defined.

Lemma single_publication_row_witness :
  exists rows,
    fst (corpus_embedding 2 toy_encode (PubLists [[pub0; pub1]; [pub1]])
           (sample_args "aggregate") empty_world) = Ok rows /\
    rows !! 1 = Some (embed toy_encode (pub_text pub1)) /\
    sqnorm (toy_encode (pub_text pub1)) = 1%Qc.
Proof.
  apply (single_publication_row 2 toy_encode toy_encode_dim toy_encode_unit
           [[pub0; pub1]; [pub1]] (sample_args "aggregate") 1 pub1 empty_world);
    reflexivity.
Defined.

Lemma aggregate_row_norm_at_most_one_witness :
  exists rows v,
    fst (corpus_embedding 2 toy_encode (PubLists [[pub0; pub1]; [pub1]])
           (sample_args "aggregate") empty_world) = Ok rows /\
    rows !! 0 = Some (map Fin v) /\
    (sqnorm v <= 1)%Qc.
Proof.
  apply (aggregate_row_norm_at_most_one 2 toy_encode toy_encode_dim
           toy_encode_unit [[pub0; pub1]; [pub1]] (sample_args "aggregate")
           0 [pub0; pub1] empty_world); [reflexivity | reflexivity | discriminate].
Defined.

Lemma nan_score_never_reaches_results_witness :
  exists e,
    fst (justify_loop sample_justification sample_query orphan_database
           (sample_args "aggregate") nan_ranking [] empty_world) = Raise e.
Proof.
  apply (proj2 (nan_score_never_reaches_results sample_justification
                  sample_query orphan_database (sample_args "aggregate")
                  nan_ranking empty_world)).
  by constructor.
Defined.

Lemma publication_less_author_stops_the_run_witness :
  exists e,
    fst (main 2 toy_encode sample_loads_query orphan_loads_profile
           sample_loads_raw sample_dumps_profile sample_dumps
           sample_build_profile sample_justification
           (sample_args "aggregate") sample_world) = Raise e /\
    fs (snd (main 2 toy_encode sample_loads_query orphan_loads_profile
               sample_loads_raw sample_dumps_profile sample_dumps
               sample_build_profile sample_justification
               (sample_args "aggregate") sample_world))
      !! output_file (sample_args "aggregate") = None.
Proof.
  destruct (publication_less_author_stops_the_run 2 toy_encode toy_encode_dim
              toy_encode_unit sample_loads_query orphan_loads_profile
              sample_loads_raw sample_dumps_profile sample_dumps
              sample_build_profile sample_justification
              (sample_args "aggregate") sample_query orphan_database
              sample_world
              (log (EvRead "data/test_query.json") sample_world)
              (log (EvRead cache_file)
                   (log (EvRead "data/test_query.json") sample_world)))
    as (e & _ & Hmain & Hfs).
  - reflexivity.
  - reflexivity.
  - reflexivity.
  - apply Exists_cons_tl. by constructor.
  - exists e. split; [by rewrite Hmain | exact Hfs].
Defined.

Lemma main_file_effects_witness :
  fs (snd (main 2 toy_encode sample_loads_query sample_loads_profile
             sample_loads_raw sample_dumps_profile sample_dumps
             sample_build_profile failing_justification
             (sample_args "summarize") sample_world))
    !! "data/test_query.json"
  = fs sample_world !! "data/test_query.json".
Proof.
  apply (proj1 (main_file_effects 2 toy_encode sample_loads_query
                  sample_loads_profile sample_loads_raw sample_dumps_profile
                  sample_dumps sample_build_profile failing_justification
                  (sample_args "summarize") sample_world)).
  - intros H. discriminate H.
  - intros H. vm_compute in H. discriminate H.
Defined.

Lemma main_event_order_witness :
  exists query database ranking results profile_events calls w2,
    fst (compute_fitness 2 toy_encode query
           (select_keys (sample_args "summarize") database)
           (sample_args "summarize") w2) = Ok ranking /\
    Forall2 (justified sample_justification sample_query database
               (sample_args "summarize")) ranking results /\
    trace (snd (main 2 toy_encode sample_loads_query sample_loads_profile
                  sample_loads_raw sample_dumps_profile sample_dumps
                  sample_build_profile sample_justification
                  (sample_args "summarize") fresh_world))
    = trace fresh_world ++ [EvRead "data/test_query.json"] ++ profile_events
      ++ [EvEncode [query];
          EvEncode (batch_texts (select_keys (sample_args "summarize") database))]
      ++ calls
      ++ [EvWrite (output_file (sample_args "summarize"))
            (output_text sample_dumps results)].
Proof.
  destruct (main_event_order 2 toy_encode sample_loads_query sample_loads_profile
              sample_loads_raw sample_dumps_profile sample_dumps
              sample_build_profile sample_justification
              (sample_args "summarize") fresh_world
              (snd (main 2 toy_encode sample_loads_query sample_loads_profile
                      sample_loads_raw sample_dumps_profile sample_dumps
                      sample_build_profile sample_justification
                      (sample_args "summarize") fresh_world)))
    as (qd & db & query & ranking & results & pe & calls & w1 & w2 & w3
        & Hq & _ & _ & Hcf & _ & Hall & Htrace & _).
  - vm_compute. reflexivity.
  - assert (Hqd : qd = sample_query).
    { unfold load_query, bind, lift, sample_loads_query in Hq.
      destruct (open_read _ _) as [[c|e] wq]; [|discriminate Hq].
      injection Hq as Hq _. by symmetry. }
    subst qd.
    exists query, db, ranking, results, pe, calls, w2.
    split; [by rewrite Hcf|]. by split.
Defined.

Lemma summarize_percent_in_range_witness :
  exists r,
    fst (compute_fitness 2 toy_encode "q" (Summaries ["sa"; "s"])
           (sample_args "summarize") empty_world) = Ok r /\
    forall e, e ∈ r ->
      exists percent,
        py_round (fmul (score e) (Fin (Qc_of_nat 100))) = Ok percent /\
        (-100 <= percent <= 100)%Z.
Proof.
  apply (summarize_percent_in_range 2 toy_encode toy_encode_unit "q"
           ["sa"; "s"] (sample_args "summarize") empty_world).
  reflexivity.
Defined.

Lemma slice_bounds_are_prefix_counts_witness :
  fst (slice_bounds [[pub0; pub1]; [pub1]]) !! 1 = Some 2 /\
  snd (slice_bounds [[pub0; pub1]; [pub1]]) !! 1 = Some 3.
Proof.
  apply (proj1 (slice_bounds_are_prefix_counts [[pub0; pub1]; [pub1]]) 1 [pub1]).
  reflexivity.
Defined.

Lemma corpus_embedding_shape_witness :
  exists rows,
    fst (corpus_embedding 2 toy_encode (PubLists [[pub0]; []])
           (sample_args "aggregate") empty_world) = Ok rows /\
    length rows = 2 /\
    Forall (fun row => length row = 2) rows.
Proof.
  apply (corpus_embedding_shape 2 toy_encode toy_encode_dim
           (PubLists [[pub0]; []]) (sample_args "aggregate") empty_world).
  split; [reflexivity | discriminate].
Defined.

Lemma output_file_determines_policy_witness :
  author_embedding (sample_args "summarize")
  = author_embedding
      {| data_path := "other.jsonl"; query_path := "q.json";
         output_path := "./log/"; llm := "m"; embedding_model_name_or_path := "e";
         author_embedding := "summarize"; device := "cuda" |}.
Proof.
  apply output_file_determines_policy; reflexivity.
Defined.
